(** * jira_release_commits.py: a shallow embedding and its properties

    The development follows the pipeline of [JiraReleaseCommitExtractor]:
    the ticket matcher (the [re.search] call of
    [get_commit_ids_for_tickets]), the paginated fetch of
    [get_tasks_in_release], the commit scan, the chronological sort and the
    script generator.

    Python [str] values are modelled as [string]; a character is one of the
    code points 0..255, classified as CPython classifies them. *)

From Stdlib Require Import Ascii String List ZArith Lia Bool DecimalString.
From stdpp Require Import base tactics option list sorting gmap strings.

Local Open Scope Z_scope.

(** ** Characters *)

Module Char.

Definition code (c : ascii) : N := N_of_ascii c.

Definition between (lo hi : N) (c : ascii) : bool :=
  ((lo <=? code c) && (code c <=? hi))%N.

(** [str.isdecimal]: below 256 only the ASCII digits. *)
Definition is_digit (c : ascii) : bool := between 48 57 c.

(** [str.isalpha] on code points below 256. *)
Definition is_alpha (c : ascii) : bool :=
  between 65 90 c || between 97 122 c
  || (code c =? 170)%N || (code c =? 181)%N || (code c =? 186)%N
  || between 192 214 c || between 216 246 c || between 248 255 c.

(** Superscript digits and vulgar fractions: numeric but not decimal. *)
Definition is_numeric (c : ascii) : bool :=
  is_digit c || (code c =? 178)%N || (code c =? 179)%N || (code c =? 185)%N
  || between 188 190 c.

(** The class [\w] of a [str] pattern: alphanumeric or underscore. *)
Definition is_word (c : ascii) : bool :=
  is_alpha c || is_numeric c || (code c =? 95)%N.

(** [str.lower] on one character. *)
Definition lower (c : ascii) : ascii :=
  if between 65 90 c || between 192 214 c || between 216 222 c
  then ascii_of_N (code c + 32) else c.

(** [str.isspace], the characters removed by [str.strip()]. *)
Definition is_space (c : ascii) : bool :=
  between 9 13 c || between 28 32 c || (code c =? 133)%N || (code c =? 160)%N.

Definition newline : ascii := ascii_of_N 10.

(** Equality of characters under [re.IGNORECASE]. *)
Definition ci_eqb (a b : ascii) : bool := Ascii.eqb (lower a) (lower b).

End Char.

(** ** Strings *)

Module Str.

Fixpoint lower (s : string) : string :=
  match s with
  | EmptyString => EmptyString
  | String c s' => String (Char.lower c) (lower s')
  end.

Definition head (s : string) : option ascii :=
  match s with
  | EmptyString => None
  | String c _ => Some c
  end.

Fixpoint last (s : string) : option ascii :=
  match s with
  | EmptyString => None
  | String c EmptyString => Some c
  | String _ s' => last s'
  end.

(** [strip p s] is the rest of [s] after the prefix [p], if [s] starts
    with [p]. *)
Fixpoint strip (p s : string) : option string :=
  match p, s with
  | EmptyString, _ => Some s
  | String a p', String b s' => if Ascii.eqb a b then strip p' s' else None
  | String _ _, EmptyString => None
  end.

Fixpoint all (f : ascii -> bool) (s : string) : bool :=
  match s with
  | EmptyString => true
  | String c s' => f c && all f s'
  end.

(** [s.split(chr(10))[0]]: the text before the first line feed. *)
Fixpoint first_line (s : string) : string :=
  match s with
  | EmptyString => EmptyString
  | String c s' =>
      if Ascii.eqb c Char.newline then EmptyString
      else String c (first_line s')
  end.

Fixpoint lstrip (s : string) : string :=
  match s with
  | EmptyString => EmptyString
  | String c s' => if Char.is_space c then lstrip s' else s
  end.

(** Removes trailing white space: a character is kept when it is not a
    space or when something is kept after it. *)
Fixpoint rstrip (s : string) : string :=
  match s with
  | EmptyString => EmptyString
  | String c s' =>
      match rstrip s' with
      | EmptyString => if Char.is_space c then EmptyString
                       else String c EmptyString
      | r => String c r
      end
  end.

(** [str.strip()] *)
Definition strip_ws (s : string) : string := rstrip (lstrip s).

(** ["\n".join(lines)] *)
Fixpoint join (sep : string) (l : list string) : string :=
  match l with
  | [] => EmptyString
  | [x] => x
  | x :: l' => x +:+ sep +:+ join sep l'
  end.

End Str.

(** ** The regular expressions of the matcher

    [re.search(rf'(?<!\w){ticket_key}(?!\d)', commit_message, re.IGNORECASE)]
    compiles a pattern obtained by pasting the ticket key between a negative
    look-behind and a negative look-ahead.  The fragment of the pattern
    language modelled here has literal characters, the wildcard [.] and the
    two look-around assertions of the source; a pattern using any other
    special character is outside the fragment and [parse] answers [None]. *)

Module Re.

Inductive category := Word | Digit.

Inductive node :=
| Literal (c : ascii)
| AnyChar
| NotBehind (k : category)
| NotAhead (k : category).

Definition in_category (k : category) (c : ascii) : bool :=
  match k with
  | Word => Char.is_word c
  | Digit => Char.is_digit c
  end.

(** The special characters of [re]: [. ^ $ * + ? { } [ ] \ | ( )]. *)
Definition is_special (c : ascii) : bool :=
  existsb (Ascii.eqb c)
    (list_ascii_of_string ".^$*+?{}[]\|()").

Fixpoint parse_fuel (fuel : nat) (s : string) : option (list node) :=
  match fuel with
  | O => None
  | S fuel' =>
      match s with
      | EmptyString => Some []
      | String c s' =>
          match Str.strip "(?<!\w)" s, Str.strip "(?!\d)" s with
          | Some r, _ => cons (NotBehind Word) <$> parse_fuel fuel' r
          | None, Some r => cons (NotAhead Digit) <$> parse_fuel fuel' r
          | None, None =>
              if Ascii.eqb c "."
              then cons AnyChar <$> parse_fuel fuel' s'
              else if is_special c then None
              else cons (Literal c) <$> parse_fuel fuel' s'
          end
      end
  end.

(** Every step consumes at least one character, so the length of the
    pattern (plus one, for the final empty string) is enough fuel. *)
Definition parse (s : string) : option (list node) :=
  parse_fuel (S (String.length s)) s.

Definition blocked (k : category) (o : option ascii) : bool :=
  match o with
  | None => false
  | Some c => in_category k c
  end.

(** [match_here p prev s]: does [p] match at the position whose previous
    character is [prev] and whose remaining text is [s]? *)
Fixpoint match_here (p : list node) (prev : option ascii) (s : string) : bool :=
  match p with
  | [] => true
  | Literal c :: p' =>
      match s with
      | String x s' => Char.ci_eqb c x && match_here p' (Some x) s'
      | EmptyString => false
      end
  | AnyChar :: p' =>
      match s with
      | String x s' => negb (Ascii.eqb x Char.newline) && match_here p' (Some x) s'
      | EmptyString => false
      end
  | NotBehind k :: p' => negb (blocked k prev) && match_here p' prev s
  | NotAhead k :: p' => negb (blocked k (Str.head s)) && match_here p' prev s
  end.

(** [re.search]: the pattern is tried at every position, left to right. *)
Fixpoint search_from (p : list node) (prev : option ascii) (s : string) : bool :=
  match_here p prev s ||
  match s with
  | EmptyString => false
  | String x s' => search_from p (Some x) s'
  end.

Definition search (p : list node) (s : string) : bool := search_from p None s.

End Re.

(** The pattern of line 154 and the truth value of the [re.search] call,
    when the pattern lies in the modelled fragment. *)
Definition ticket_pattern (ticket_key : string) : string :=
  "(?<!\w)" +:+ ticket_key +:+ "(?!\d)".

Definition ticket_matches (ticket_key commit_message : string) : option bool :=
  p ← Re.parse (ticket_pattern ticket_key);
  Some (Re.search p commit_message).

(** The matcher as the specification words it: the key occurs in the
    message, compared without regard to case, with no word character just
    before the occurrence and no digit just after it. *)
Definition occurs_bounded (K M : string) : Prop :=
  ∃ pre mid post : string,
    M = pre +:+ mid +:+ post
    ∧ Str.lower mid = Str.lower K
    ∧ Re.blocked Re.Word (Str.last pre) = false
    ∧ Re.blocked Re.Digit (Str.head post) = false.

(** A key is literal when none of its characters is special in a pattern. *)
Definition literal_key (K : string) : bool :=
  Str.all (fun c => negb (Re.is_special c)) K.

(** The character before the position reached after reading [s], when the
    character before [s] was [prev]. *)
Definition last_or (prev : option ascii) (s : string) : option ascii :=
  match Str.last s with Some c => Some c | None => prev end.

Fixpoint lits (s : string) : list Re.node :=
  match s with
  | EmptyString => []
  | String c s' => Re.Literal c :: lits s'
  end.

(** The pattern a literal key compiles to. *)
Definition literal_pattern (K : string) : list Re.node :=
  Re.NotBehind Re.Word :: lits K ++ [Re.NotAhead Re.Digit].

(** ** Data *)

(** A JIRA issue object; the code reads only its ['key']. *)
Record issue := Issue {
  key : string;
  fields : list (string * string) }.

(** A commit of [repo.iter_commits()]. *)
Record commit := Commit {
  hexsha : string;
  message : string;
  committed_date : Z }.

(** The dictionaries appended to [commits]; a [datetime] is counted in
    seconds of local wall-clock time. *)
Record association := Association {
  ticket_key : string;
  commit_hash : string;
  commit_date : Z;
  commit_message : string }.

Record extractor := Extractor {
  release_id : string;
  target_branch : string;
  output_file : string;
  jira_base_url : string }.

(** [output_file or f"cherry_pick_release_{release_id}.sh"] *)
Definition default_output_file (rid : string) (output : option string) : string :=
  match output with
  | Some (String c s) => String c s
  | _ => "cherry_pick_release_" +:+ rid +:+ ".sh"
  end.

(** ** The outside world *)

(** The value under ['total'] when the key is present: JSON [null], read
    by Python as [None], or a number. *)
Inductive json_value :=
| JNull
| JInt (n : Z).

(** The part of a JSON answer that the code reads with [.get]; [None] is
    an absent key. *)
Record json := Json {
  json_name : option string;
  json_issues : option (list issue);
  json_total : option json_value }.

Record http_response := HttpResponse {
  ok : bool;
  status_code : Z;
  text : string }.

Inductive reply :=
| Answer (body : json)
| RequestException (e : string) (response : option http_response).

Record search_params := SearchParams {
  jql : string;
  fields_wanted : string;
  maxResults : Z;
  startAt : Z }.

Record request := Request {
  url : string;
  params : option search_params }.

Inductive file_op :=
| WriteFile (path content : string)
| Chmod (path : string) (mode : Z).

(** What a run leaves behind: the requests sent, the lines printed and the
    file operations, each in order. *)
Record world := World {
  requests : list request;
  stdout : list string;
  file_ops : list file_op }.

Definition world0 : world := World [] [] [].

Inductive outcome (A : Type) :=
| Done (a : A)
| SysExit (status : Z)
| Raised (exception : string).
Arguments Done {A} a.
Arguments SysExit {A} status.
Arguments Raised {A} exception.

(** A computation reads and extends the world; [None] means that the fuel
    given to a loop ran out before the loop ended. *)
Definition M (A : Type) : Type := world -> option (outcome A * world).

Definition ret {A} (a : A) : M A := fun w => Some (Done a, w).

Definition bind {A B} (m : M A) (f : A -> M B) : M B := fun w =>
  match m w with
  | None => None
  | Some (Done a, w') => f a w'
  | Some (SysExit n, w') => Some (SysExit n, w')
  | Some (Raised e, w') => Some (Raised e, w')
  end.

Declare Scope io_scope.
Delimit Scope io_scope with io.
Notation "'let*' x ':=' m 'in' k" := (bind m (fun x => k))
  (at level 10, x name, m at level 100, k at level 200) : io_scope.
Notation "m ;; k" := (bind m (fun _ => k))
  (at level 100, k at level 200, right associativity) : io_scope.
Local Open Scope io_scope.

Definition print (line : string) : M unit := fun w =>
  Some (Done tt, World (requests w) (stdout w ++ [line]) (file_ops w)).

Definition sys_exit {A} (status : Z) : M A := fun w => Some (SysExit status, w).

Definition out_of_fuel {A} : M A := fun _ => None.

Definition raise {A} (exception : string) : M A := fun w =>
  Some (Raised exception, w).

(** [with open(path, 'w') as f: f.write(content)] either writes the text or
    raises an [OSError]; in the second case the file may have been created
    already and [left_behind] is what it then holds. *)
Inductive write_result :=
| Written
| WriteFailed (e : string) (left_behind : option string).

(** The file system: what it answers to the write and to [os.chmod], which
    returns or raises an [OSError]. *)
Record file_system := FileSystem {
  fs_write : string -> string -> write_result;
  fs_chmod : string -> Z -> option string }.

(** A file system on which nothing fails. *)
Definition sound_disk : file_system :=
  FileSystem (fun _ _ => Written) (fun _ _ => None).

(** What [re.search] answers for a pattern outside the fragment of [Re]:
    a truth value, or [None] when the pattern is rejected with [re.error].
    [key_found] is the test of line 154 for every key. *)
Definition key_found (re_other : string -> string -> option bool)
    (ticket_key commit_message : string) : option bool :=
  match ticket_matches ticket_key commit_message with
  | Some b => Some b
  | None => re_other (ticket_pattern ticket_key) commit_message
  end.

(** [str(n)] for an integer. *)
Definition show_Z (n : Z) : string := NilZero.string_of_int (Z.to_int n).

(** [str(total)] for the loop variable, which is [None] or an integer. *)
Definition show_total (total : option Z) : string :=
  match total with
  | None => "None"
  | Some t => show_Z t
  end.

(** [response.get('total', 0)]: 0 for an absent key, [None] for [null]. *)
Definition read_total (response : json) : option Z :=
  match json_total response with
  | None => Some 0
  | Some JNull => None
  | Some (JInt n) => Some n
  end.

Definition len {A} (l : list A) : Z := Z.of_nat (length l).

Definition nl : string := String Char.newline "".

(** The double quote character, as a string. *)
Definition dquote : string := String (ascii_of_N 34) "".

(** [not x] for an optional string: [None] and the empty string are false. *)
Definition truthy (o : option string) : bool :=
  match o with
  | Some (String _ _) => true
  | _ => false
  end.

(** ** [sorted(..., key=...)]

    Python's [sorted] is stable, and a stable sort has only one possible
    result; it is modelled by a stable insertion sort. *)

Section sorted.
Context {A : Type} (sort_key : A -> Z).

Fixpoint insert_sorted (x : A) (l : list A) : list A :=
  match l with
  | [] => [x]
  | y :: l' =>
      if sort_key x <=? sort_key y then x :: y :: l'
      else y :: insert_sorted x l'
  end.

Definition sorted (l : list A) : list A := foldr insert_sorted [] l.
End sorted.

(** ** The methods of [JiraReleaseCommitExtractor] *)

Section methods.

(** [self], the replies of the JIRA server (the n-th request of the run,
    counted from 0, is answered by [jira n]), the history returned by
    [repo.iter_commits()], the local time zone as
    [datetime.fromtimestamp], and the text of
    [datetime.now().strftime(...)]. *)
Variable self : extractor.
Variable jira : nat -> reply.
Variable repo : list commit.
Variable fromtimestamp : Z -> Z.
Variable now : string.

(** The answers of [re.search] outside the modelled fragment, and the file
    system. *)
Variable re_other : string -> string -> option bool.
Variable disk : file_system.

Definition make_jira_request (u : string) (p : option search_params) : M json :=
  fun w =>
    let sent := requests w ++ [Request u p] in
    match jira (length (requests w)) with
    | Answer body => Some (Done body, World sent (stdout w) (file_ops w))
    | RequestException e response =>
        let report :=
          ("Error making request to JIRA API: " +:+ e) ::
          match response with
          | Some r =>
              if ok r
              then ["Response status code: " +:+ show_Z (status_code r);
                    "Response body: " +:+ text r]
              else []
          | None => []
          end in
        Some (SysExit 1, World sent (stdout w ++ report) (file_ops w))
    end.

Definition version_url : string :=
  jira_base_url self +:+ "/rest/api/2/version/" +:+ release_id self.

Definition search_url : string := jira_base_url self +:+ "/rest/api/2/search".

Definition get_release_info : M json := make_jira_request version_url None.

Definition max_results : Z := 100.

Definition loop_continues (start_at : Z) (total : option Z) : bool :=
  match total with
  | None => true
  | Some t => start_at <? t
  end.

(** The [while] loop of lines 97-123; one unit of fuel per iteration. *)
Fixpoint fetch_loop (fuel : nat) (q : string) (all_issues : list issue)
    (start_at : Z) (total : option Z) : M (list issue) :=
  if loop_continues start_at total then
    match fuel with
    | O => out_of_fuel
    | S fuel' =>
        let* response :=
          make_jira_request search_url
            (Some (SearchParams q "key,summary,status,created,updated"
                     max_results start_at)) in
        let issues := default [] (json_issues response) in
        match issues with
        | [] => ret all_issues
        | _ :: _ =>
            let all_issues := all_issues ++ issues in
            let total :=
              match total with
              | None => read_total response
              | Some t => Some t
              end in
            let start_at := start_at + len issues in
            print ("Retrieved " +:+ show_Z (len issues)
                   +:+ " issues (total so far: " +:+ show_Z (len all_issues)
                   +:+ " of " +:+ show_total total +:+ ")") ;;
            if len issues <? max_results then ret all_issues
            else fetch_loop fuel' q all_issues start_at total
        end
    end
  else ret all_issues.

Definition get_tasks_in_release (fuel : nat) : M (list issue) :=
  let* release_info := get_release_info in
  let release_name := json_name release_info in
  if negb (truthy release_name)
  then
    print ("Error: Could not find release with ID " +:+ release_id self) ;;
    sys_exit 1
  else
    let release_name := default "" release_name in
    print ("Found release: " +:+ release_name) ;;
    let q := "fixVersion = " +:+ dquote +:+ release_name +:+ dquote
             +:+ " ORDER BY created ASC" in
    let* all_issues := fetch_loop fuel q [] 0 None in
    print ("Found " +:+ show_Z (len all_issues) +:+ " issues in release "
           +:+ release_name) ;;
    ret all_issues.

(** The inner [for] of lines 153-166, for one commit: the list built so
    far and the set of hashes already used are threaded through. *)
Fixpoint scan_keys (c : commit) (ticket_keys : list string)
    (st : list association * gset string) : option (list association * gset string) :=
  match ticket_keys with
  | [] => Some st
  | ticket_key :: rest =>
      match key_found re_other ticket_key (message c) with
      | None => None
      | Some false => scan_keys c rest st
      | Some true =>
          if bool_decide (hexsha c ∈ st.2) then scan_keys c rest st
          else
            scan_keys c rest
              (st.1 ++ [Association ticket_key (hexsha c)
                          (fromtimestamp (committed_date c))
                          (Str.strip_ws (message c))],
               st.2 ∪ {[hexsha c]})
      end
  end.

(** The outer [for] of line 148. *)
Fixpoint scan_commits (all_commits : list commit) (ticket_keys : list string)
    (st : list association * gset string) : option (list association * gset string) :=
  match all_commits with
  | [] => Some st
  | c :: rest =>
      match scan_keys c ticket_keys st with
      | None => None
      | Some st' => scan_commits rest ticket_keys st'
      end
  end.

Definition associate (issues : list issue) : option (list association) :=
  fst <$> scan_commits repo (key <$> issues) ([], ∅).

Definition get_commit_ids_for_tickets (issues : list issue) : M (list association) :=
  match associate issues with
  | None => raise "re.error"
  | Some commits =>
      print ("Found " +:+ show_Z (len commits)
             +:+ " unique commits associated with the tickets") ;;
      ret commits
  end.

Definition order_commits_chronologically (commits : list association)
  : list association := sorted commit_date commits.

Definition script_header : list string :=
  [ "#!/bin/bash";
    "";
    "# Cherry-pick script for JIRA release " +:+ release_id self;
    "# Generated on " +:+ now;
    "";
    "# Exit on error";
    "set -e";
    "";
    "# Checkout the target branch";
    "git checkout " +:+ target_branch self;
    "";
    "# Cherry-pick each commit";
    "" ].

(** The [for] loop of lines 209-212, three [append]s per commit. *)
Fixpoint append_commits (script_content : list string)
    (ordered_commits : list association) : list string :=
  match ordered_commits with
  | [] => script_content
  | c :: rest =>
      let script_content :=
        script_content
          ++ ["# " +:+ ticket_key c +:+ ": " +:+ Str.first_line (commit_message c)] in
      let script_content :=
        script_content
          ++ ["git cherry-pick --strategy=recursive -X theirs " +:+ commit_hash c] in
      let script_content := script_content ++ [""] in
      append_commits script_content rest
  end.

Definition script_content (ordered_commits : list association) : list string :=
  append_commits script_header ordered_commits
    ++ ["echo 'Cherry-picking completed successfully!'"].

(** The write of lines 217-218: a failure raises, after leaving in the
    file what the file system says. *)
Definition write_file (path content : string) : M unit := fun w =>
  match fs_write disk path content with
  | Written =>
      Some (Done tt,
            World (requests w) (stdout w) (file_ops w ++ [WriteFile path content]))
  | WriteFailed e left_behind =>
      Some (Raised e,
            World (requests w) (stdout w)
              (file_ops w ++ match left_behind with
                             | Some partial => [WriteFile path partial]
                             | None => []
                             end))
  end.

(** [os.chmod] of line 221. *)
Definition chmod (path : string) (mode : Z) : M unit := fun w =>
  match fs_chmod disk path mode with
  | None =>
      Some (Done tt,
            World (requests w) (stdout w) (file_ops w ++ [Chmod path mode]))
  | Some e => Some (Raised e, w)
  end.

Definition generate_cherry_pick_script (ordered_commits : list association)
  : M string :=
  write_file (output_file self) (Str.join nl (script_content ordered_commits)) ;;
  chmod (output_file self) 493 ;;
  print ("Cherry-pick script generated: " +:+ output_file self) ;;
  ret (output_file self).

Definition run (fuel : nat) : M string :=
  print ("Starting JIRA Release Commit Extractor for release ID: "
         +:+ release_id self) ;;
  let* issues := get_tasks_in_release fuel in
  let* commits := get_commit_ids_for_tickets issues in
  let ordered_commits := order_commits_chronologically commits in
  let* script_path := generate_cherry_pick_script ordered_commits in
  print "JIRA Release Commit Extractor completed successfully!" ;;
  ret script_path.

End methods.

(** ** Vocabulary of the statements *)

(** The issues carried by a reply; a failed request carries none. *)
Definition reply_issues (r : reply) : list issue :=
  match r with
  | Answer body => default [] (json_issues body)
  | RequestException _ _ => []
  end.

(** A short page: an answer with fewer issues than the page size. *)
Definition short_page (r : reply) : Prop :=
  match r with
  | Answer body => len (default [] (json_issues body)) < max_results
  | RequestException _ _ => False
  end.

(** The search request of one iteration of the loop. *)
Definition search_request (self : extractor) (q : string) (start_at : Z) : request :=
  Request (search_url self)
    (Some (SearchParams q "key,summary,status,created,updated" max_results start_at)).

(** The query built from a release name. *)
Definition release_jql (release_name : string) : string :=
  "fixVersion = " +:+ dquote +:+ release_name +:+ dquote +:+ " ORDER BY created ASC".

(** The issues of the replies to requests [first], ..., [first + n - 1]. *)
Definition received (jira : nat -> reply) (first n : nat) : list issue :=
  flat_map (fun i => reply_issues (jira i)) (seq first n).

(** The progress line printed after a page. *)
Definition progress_line (page all_issues : list issue) (total : option Z)
  : string :=
  "Retrieved " +:+ show_Z (len page) +:+ " issues (total so far: "
  +:+ show_Z (len all_issues) +:+ " of " +:+ show_total total +:+ ")".

(** The total the loop works with after a reply: still [None] when none
    was known and the reply carries [null]. *)
Definition known_total (total : option Z) (body : json) : option Z :=
  match total with
  | None => read_total body
  | Some t => Some t
  end.

(** The world after a page that was not empty: one more request, one
    more progress line. *)
Definition after_page (self : extractor) (q : string) (all_issues : list issue)
    (start_at : Z) (total : option Z) (w : world) (body : json) : world :=
  World (requests w ++ [search_request self q start_at])
    (stdout w ++ [progress_line (default [] (json_issues body))
                    (all_issues ++ default [] (json_issues body))
                    (known_total total body)])
    (file_ops w).

(** The world after the release was looked up and its name printed. *)
Definition after_lookup (self : extractor) (release_name : string) (w : world) : world :=
  World (requests w ++ [Request (version_url self) None])
    (stdout w ++ ["Found release: " +:+ release_name])
    (file_ops w).

(** The end of [get_tasks_in_release] after the loop. *)
Definition finish_fetch (release_name : string)
    (r : option (outcome (list issue) * world)) : option (outcome (list issue) * world) :=
  match r with
  | Some (Done all_issues, w) =>
      Some (Done all_issues,
            World (requests w)
              (stdout w ++ ["Found " +:+ show_Z (len all_issues)
                            +:+ " issues in release " +:+ release_name])
              (file_ops w))
  | other => other
  end.

(** [k] is the first of [keys], in their order, that matches [m]. *)
Definition first_matching (re_other : string -> string -> option bool)
    (keys : list string) (m k : string) : Prop :=
  ∃ pre post : list string,
    keys = pre ++ k :: post
    ∧ key_found re_other k m = Some true
    ∧ ∀ k', k' ∈ pre → key_found re_other k' m = Some false.

(** The dictionary appended for commit [c] under key [k]. *)
Definition association_of (fromtimestamp : Z -> Z) (k : string) (c : commit)
  : association :=
  Association k (hexsha c) (fromtimestamp (committed_date c))
    (Str.strip_ws (message c)).

(** The state of the scan agrees with the history [log]: the set holds the
    hashes of the list, no hash occurs twice, and every association pairs a
    commit of the history with the first key that matches its message. *)
Definition scan_inv (fromtimestamp : Z -> Z)
    (re_other : string -> string -> option bool) (keys : list string)
    (log : list commit) (st : list association * gset string) : Prop :=
  (∀ h, h ∈ st.2 ↔ h ∈ commit_hash <$> st.1)
  ∧ NoDup (commit_hash <$> st.1)
  ∧ ∀ a, a ∈ st.1 →
      ∃ c, c ∈ log ∧ first_matching re_other keys (message c) (ticket_key a)
           ∧ a = association_of fromtimestamp (ticket_key a) c.

(** The three lines appended to the script for one association. *)
Definition script_entry (a : association) : list string :=
  [ "# " +:+ ticket_key a +:+ ": " +:+ Str.first_line (commit_message a);
    "git cherry-pick --strategy=recursive -X theirs " +:+ commit_hash a;
    "" ].


Definition no_newline (s : string) : bool :=
  Str.all (fun c => negb (Ascii.eqb c Char.newline)) s.

(** [text.split(chr(10))] *)
Fixpoint split_lines (s : string) : list string :=
  match s with
  | EmptyString => [EmptyString]
  | String c s' =>
      if Ascii.eqb c Char.newline then EmptyString :: split_lines s'
      else match split_lines s' with
           | [] => [String c EmptyString]
           | x :: r => String c x :: r
           end
  end.

(** ** Start-up: [__init__] and [main] *)

(** What [__init__] reads from outside: three environment variables, and
    the text of the exception raised when the working directory cannot be
    opened as a repository, if any. *)
Record environment := Environment {
  env_JIRA_BASE_URL : option string;
  env_JIRA_USERNAME : option string;
  env_JIRA_API_TOKEN : option string;
  repo_error : option string }.

(** [JiraReleaseCommitExtractor.__init__], lines 36-56. *)
Definition init (env : environment) (rid branch : string)
    (output : option string) : M extractor :=
  let self_output_file := default_output_file rid output in
  let self_jira_base_url :=
    default "https://your-jira-instance.atlassian.net" (env_JIRA_BASE_URL env) in
  if negb (truthy (env_JIRA_USERNAME env)) || negb (truthy (env_JIRA_API_TOKEN env))
  then
    print "Error: JIRA_USERNAME and JIRA_API_TOKEN environment variables must be set." ;;
    sys_exit 1
  else
    match repo_error env with
    | Some e => print ("Error initializing Git repository: " +:+ e) ;; sys_exit 1
    | None => ret (Extractor rid branch self_output_file self_jira_base_url)
    end.

(** The command line after [parse_args]: two required options and an
    optional one. *)
Record arguments := Args {
  arg_release_id : string;
  arg_target_branch : string;
  arg_output : option string }.

(** [main], lines 281-289, once the arguments are parsed. *)
Definition main (env : environment) (args : arguments) (jira : nat -> reply)
    (repo : list commit) (fromtimestamp : Z -> Z) (now : string)
    (re_other : string -> string -> option bool) (disk : file_system)
    (fuel : nat) : M unit :=
  let* extractor :=
    init env (arg_release_id args) (arg_target_branch args) (arg_output args) in
  run extractor jira repo fromtimestamp now re_other disk fuel ;;
  ret tt.

(** ** More vocabulary *)

(** The total that the loop reads from the first search reply: [None] when
    that reply carries [null]. *)
Definition first_total (jira : nat -> reply) : option Z :=
  match jira 1%nat with
  | Answer body => read_total body
  | RequestException _ _ => Some 0
  end.

(** The first key of [keys] that matches [m], if any. *)
Fixpoint first_match (re_other : string -> string -> option bool)
    (keys : list string) (m : string) : option string :=
  match keys with
  | [] => None
  | k :: rest =>
      match key_found re_other k m with
      | Some true => Some k
      | _ => first_match re_other rest m
      end
  end.

(** The association of a commit, when some key matches its message. *)
Definition association_for (fromtimestamp : Z -> Z)
    (re_other : string -> string -> option bool) (keys : list string)
    (c : commit) : option association :=
  (fun k => association_of fromtimestamp k c)
    <$> first_match re_other keys (message c).

(** The replay command of an association. *)
Definition pick_line (a : association) : string :=
  "git cherry-pick --strategy=recursive -X theirs " +:+ commit_hash a.

(** Does a line of the script start a cherry-pick? *)
Definition is_pick (s : string) : bool :=
  match Str.strip "git cherry-pick " s with
  | Some _ => true
  | None => false
  end.

(** A key whose characters are ordinary ones or dots. *)
Definition dotted_key (K : string) : bool :=
  Str.all (fun c => Ascii.eqb c "." || negb (Re.is_special c)) K.

(** What one character of such a key accepts. *)
Definition key_char_accepts (k x : ascii) : bool :=
  if Ascii.eqb k "." then negb (Ascii.eqb x Char.newline) else Char.ci_eqb k x.

(** [mid] is accepted by key [K], character by character. *)
Fixpoint key_accepts (K mid : string) : bool :=
  match K, mid with
  | EmptyString, EmptyString => true
  | String k K', String x mid' => key_char_accepts k x && key_accepts K' mid'
  | _, _ => false
  end.

Fixpoint key_nodes (K : string) : list Re.node :=
  match K with
  | EmptyString => []
  | String c K' =>
      (if Ascii.eqb c "." then Re.AnyChar else Re.Literal c) :: key_nodes K'
  end.

(** The world after the first line of [run] was printed. *)
Definition started (self : extractor) (w : world) : world :=
  World (requests w)
    (stdout w ++ ["Starting JIRA Release Commit Extractor for release ID: "
                  +:+ release_id self])
    (file_ops w).

(** The two file operations of a completed run. *)
Definition script_written (self : extractor) (now : string)
    (ordered : list association) : list file_op :=
  [ WriteFile (output_file self) (Str.join nl (script_content self now ordered));
    Chmod (output_file self) 493 ].

(** Two replies that differ at most in the name and total they report. *)
Definition same_but_total (r r' : reply) : Prop :=
  match r, r' with
  | Answer b, Answer b' => json_issues b = json_issues b'
  | RequestException e x, RequestException e' x' => e = e' ∧ x = x'
  | _, _ => False
  end.


(** No text pasted into the script holds a line feed. *)
Definition single_lines (self : extractor) (now : string)
    (ordered : list association) : Prop :=
  no_newline (release_id self) = true
  ∧ no_newline now = true
  ∧ no_newline (target_branch self) = true
  ∧ Forall (λ a, no_newline (ticket_key a) = true
                 ∧ no_newline (commit_hash a) = true) ordered.

(** A server that never reports a total and never sends a short page. *)
Definition endless (jira : nat -> reply) : Prop :=
  ∀ n, (1 ≤ n)%nat →
    ∃ b, jira n = Answer b
         ∧ json_total b = Some JNull
         ∧ max_results ≤ len (default [] (json_issues b)).

(** A [re] that rejects every pattern outside the modelled fragment. *)
Definition no_other : string -> string -> option bool := fun _ _ => None.

(** ** Properties of the matcher *)

Section matcher_facts.

Implicit Types (s t K M : string) (c : ascii).

Lemma app_cons c s t : String c s +:+ t = String c (s +:+ t).
Proof. reflexivity. Qed.

Lemma app_empty_l s : "" +:+ s = s.
Proof. reflexivity. Qed.

Lemma app_assoc_s s t u : (s +:+ t) +:+ u = s +:+ t +:+ u.
Proof. induction s as [|c s IH]; [done|]. by rewrite !app_cons, IH. Qed.

Lemma app_empty_r s : s +:+ "" = s.
Proof. induction s as [|c s IH]; [done|]. by rewrite app_cons, IH. Qed.


Lemma last_cons_is_Some c s : is_Some (Str.last (String c s)).
Proof.
  revert c. induction s as [|d s IH]; intros c; [by eexists|].
  change (Str.last (String c (String d s))) with (Str.last (String d s)).
  apply IH.
Qed.

Lemma last_or_cons prev c s : last_or prev (String c s) = last_or (Some c) s.
Proof.
  unfold last_or. destruct s as [|d s]; [done|].
  change (Str.last (String c (String d s))) with (Str.last (String d s)).
  by destruct (last_cons_is_Some d s) as [x ->].
Qed.

Lemma last_or_None s : last_or None s = Str.last s.
Proof. unfold last_or. by destruct (Str.last s). Qed.


Lemma match_here_lits K q prev s :
  Re.match_here (lits K ++ q) prev s = true ↔
  ∃ mid rest, s = mid +:+ rest ∧ Str.lower mid = Str.lower K
              ∧ Re.match_here q (last_or prev mid) rest = true.
Proof.
  revert prev s. induction K as [|c K IH]; intros prev s.
  - split.
    + intros H. exists "", s. done.
    + intros (mid & rest & -> & Hl & H). by destruct mid.
  - change (lits (String c K) ++ q) with (Re.Literal c :: (lits K ++ q)).
    split.
    + destruct s as [|x s]; [done|]. cbn [Re.match_here].
      intros [Hc H]%andb_true_iff. apply IH in H as (mid & rest & -> & Hl & H).
      exists (String x mid), rest. rewrite last_or_cons. split_and!; [done| |done].
      cbn [Str.lower]. f_equal; [|done].
      unfold Char.ci_eqb in Hc. by apply Ascii.eqb_eq in Hc.
    + intros (mid & rest & -> & Hl & H). destruct mid as [|x mid]; [done|].
      rewrite app_cons. cbn [Re.match_here]. cbn [Str.lower] in Hl.
      injection Hl as Hx Hl. rewrite last_or_cons in H.
      apply andb_true_iff. split.
      * unfold Char.ci_eqb. apply Ascii.eqb_eq. done.
      * apply IH. eauto.
Qed.

Lemma search_from_spec p prev s :
  Re.search_from p prev s = true ↔
  ∃ pre rest, s = pre +:+ rest ∧ Re.match_here p (last_or prev pre) rest = true.
Proof.
  revert prev. induction s as [|x s IH]; intros prev; cbn [Re.search_from].
  - rewrite orb_false_r. split.
    + intros H. by exists "", "".
    + intros (pre & rest & E & H). destruct pre; [|done].
      destruct rest; [|done]. done.
  - rewrite orb_true_iff, IH. split.
    + intros [H|(pre & rest & -> & H)].
      * by exists "", (String x s).
      * exists (String x pre), rest. by rewrite last_or_cons.
    + intros (pre & rest & E & H). destruct pre as [|y pre].
      * left. rewrite app_empty_l in E. by subst rest.
      * right. rewrite app_cons in E. injection E as -> ->.
        rewrite last_or_cons in H. eauto.
Qed.


Lemma search_literal_pattern K M :
  Re.search (literal_pattern K) M = true ↔ occurs_bounded K M.
Proof.
  unfold Re.search, literal_pattern, occurs_bounded. rewrite search_from_spec.
  split.
  - intros (pre & rest & -> & H). cbn [Re.match_here] in H.
    apply andb_true_iff in H as [Hb H]. apply match_here_lits in H
      as (mid & post & -> & Hl & H).
    cbn [Re.match_here] in H. rewrite andb_true_r in H.
    exists pre, mid, post. rewrite last_or_None in Hb.
    split_and!; [done|done|by apply negb_true_iff|by apply negb_true_iff].
  - intros (pre & mid & post & -> & Hl & Hb & Ha).
    exists pre, (mid +:+ post). split; [done|]. cbn [Re.match_here].
    rewrite last_or_None, Hb. cbn [negb andb]. apply match_here_lits.
    exists mid, post. split_and!; [done|done|]. cbn [Re.match_here].
    by rewrite Ha.
Qed.

Lemma strip_special c s p :
  Re.is_special c = false → Str.strip (String "(" p) (String c s) = None.
Proof.
  intros H. cbn [Str.strip]. destruct (Ascii.eqb_spec "(" c) as [<-|]; [|done].
  by vm_compute in H.
Qed.

Lemma parse_fuel_literal K n :
  literal_key K = true → (String.length K < n)%nat →
  Re.parse_fuel (S n) (K +:+ "(?!\d)") = Some (lits K ++ [Re.NotAhead Re.Digit]).
Proof.
  revert n. induction K as [|c K IH]; intros n HK Hn.
  - destruct n as [|n]; [simpl in Hn; lia|]. reflexivity.
  - cbn [literal_key Str.all] in HK. apply andb_true_iff in HK as [Hc HK].
    apply negb_true_iff in Hc. simpl in Hn.
    destruct n as [|n]; [lia|]. rewrite app_cons.
    remember (S n) as m. cbn [Re.parse_fuel].
    rewrite !strip_special by done. rewrite Hc.
    destruct (Ascii.eqb_spec c ".") as [->|_]; [by vm_compute in Hc|].
    subst m. rewrite IH by (done || lia). done.
Qed.

Lemma length_app_s s t :
  String.length (s +:+ t) = (String.length s + String.length t)%nat.
Proof. induction s as [|c s IH]; [done|]. rewrite app_cons. simpl. by rewrite IH. Qed.

Lemma parse_literal K :
  literal_key K = true →
  Re.parse (ticket_pattern K) = Some (literal_pattern K).
Proof.
  intros HK. unfold Re.parse, ticket_pattern.
  rewrite length_app_s, length_app_s.
  change (String.length "(?<!\w)") with 7%nat.
  change (String.length "(?!\d)") with 6%nat.
  set (n := (String.length K + 6)%nat).
  change (S (7 + n)) with (S (S (6 + n))).
  set (r := K +:+ "(?!\d)").
  change ("(?<!\w)" +:+ r) with (String "(" ("?<!\w)" +:+ r)).
  remember (S (6 + n)) as m. cbn [Re.parse_fuel].
  change (Str.strip "(?<!\w)" (String "(" ("?<!\w)" +:+ r))) with (Some r).
  subst m r. rewrite parse_fuel_literal by (done || lia). done.
Qed.

Lemma matcher_literal_total K M :
  literal_key K = true → ∃ b, ticket_matches K M = Some b.
Proof. intros HK. unfold ticket_matches. rewrite (parse_literal K HK). by eexists. Qed.

End matcher_facts.

(** C6. The three test vectors of the matcher: key [PROJ-1] does not match
    [fixes PROJ-12] (a digit follows), key [PROJ-12] matches
    [fixes PROJ-12 today], and key [PROJ-12] does not match [xPROJ-12] (a
    word character precedes). *)
Theorem matcher_test_vectors :
  ticket_matches "PROJ-1" "fixes PROJ-12" = Some false
  ∧ ticket_matches "PROJ-12" "fixes PROJ-12 today" = Some true
  ∧ ticket_matches "PROJ-12" "xPROJ-12" = Some false.
Proof. split_and!; vm_compute; reflexivity. Qed.

(** X19. On text of code points 0 to 255 and for a ticket key without
    special characters of the pattern language, the [re.search] test
    succeeds exactly when the key occurs in the message, compared character
    by character after lower-casing, with no word character just before it
    and no digit just after it. *)
Theorem matcher_literal_key (K M : string) :
  literal_key K = true →
  ∃ b : bool, ticket_matches K M = Some b ∧ (b = true ↔ occurs_bounded K M).
Proof.
  intros HK. exists (Re.search (literal_pattern K) M). split.
  - unfold ticket_matches. by rewrite (parse_literal K HK).
  - apply search_literal_pattern.
Qed.

Lemma matcher_literal_key_witness :
  literal_key "PROJ-12" = true
  ∧ ∃ b : bool, ticket_matches "PROJ-12" "fixes PROJ-12 today" = Some b
                ∧ (b = true ↔ occurs_bounded "PROJ-12" "fixes PROJ-12 today").
Proof.
  split; [reflexivity|].
  apply (matcher_literal_key "PROJ-12" "fixes PROJ-12 today"). reflexivity.
Defined.

(** C1. The test of line 154 does not decide whether the key occurs in
    the message: the key is pasted into the pattern without [re.escape], so
    the dot of key [A.1] stands for any character and the message [AX1] is
    matched although the key does not occur in it. *)
Theorem unescaped_key_matches_without_occurrence :
  ticket_matches "A.1" "AX1" = Some true ∧ ¬ occurs_bounded "A.1" "AX1".
Proof.
  split; [vm_compute; reflexivity|].
  intros Hm. apply search_literal_pattern in Hm. vm_compute in Hm. discriminate.
Qed.

(** ** Properties of [sorted] and of the chronological order *)

Section sorted_facts.
Context {A : Type} (sort_key : A → Z).

Local Abbreviation le_key := (λ a b : A, sort_key a ≤ sort_key b).

Lemma insert_sorted_perm x l : insert_sorted sort_key x l ≡ₚ x :: l.
Proof.
  induction l as [|y l IH]; simpl; [done|].
  destruct (sort_key x <=? sort_key y); [done|].
  rewrite IH. apply Permutation_swap.
Qed.

Lemma sorted_perm l : sorted sort_key l ≡ₚ l.
Proof.
  induction l as [|x l IH]; simpl; [done|].
  by rewrite insert_sorted_perm, IH.
Qed.

Lemma insert_sorted_ascending x l :
  StronglySorted le_key l → StronglySorted le_key (insert_sorted sort_key x l).
Proof.
  induction 1 as [|y l Hl IH Hy]; simpl.
  - repeat constructor.
  - destruct (Z.leb_spec (sort_key x) (sort_key y)) as [Hxy|Hxy].
    + constructor; [by constructor|]. constructor; [done|].
      eapply Forall_impl; [exact Hy|]. simpl. intros; lia.
    + constructor; [done|]. rewrite insert_sorted_perm.
      constructor; [lia|done].
Qed.

Lemma sorted_ascending l : StronglySorted le_key (sorted sort_key l).
Proof.
  induction l as [|x l IH]; simpl; [constructor|].
  by apply insert_sorted_ascending.
Qed.

Lemma insert_sorted_filter t x l :
  filter (λ a, sort_key a = t) (insert_sorted sort_key x l)
  = filter (λ a, sort_key a = t) (x :: l).
Proof.
  induction l as [|y l IH]; simpl; [done|].
  destruct (Z.leb_spec (sort_key x) (sort_key y)) as [Hxy|Hxy]; [done|].
  rewrite (filter_cons _ y), IH, !filter_cons.
  repeat case_decide; (done || lia).
Qed.

Lemma sorted_filter t l :
  filter (λ a, sort_key a = t) (sorted sort_key l)
  = filter (λ a, sort_key a = t) l.
Proof.
  induction l as [|x l IH]; simpl; [done|].
  by rewrite insert_sorted_filter, !filter_cons, IH.
Qed.

Lemma ascending_lookup l i j a b :
  StronglySorted le_key l → l !! i = Some a → l !! j = Some b →
  (i < j)%nat → sort_key a ≤ sort_key b.
Proof.
  intros Hl. revert i j. induction Hl as [|y l Hl IH Hy]; intros i j Hi Hj Hij.
  - done.
  - destruct j as [|j]; [lia|]. simpl in Hj. destruct i as [|i].
    + simpl in Hi. injection Hi as ->.
      rewrite Forall_forall in Hy. apply Hy. by eapply list_elem_of_lookup_2.
    + simpl in Hi. eapply IH; [done..|lia].
Qed.

End sorted_facts.

(** C3. [order_commits_chronologically] returns a permutation of its input
    that ascends by commit date; associations of equal date keep the order
    they had in the input; and of two associations with dates [t1 < t2] the
    one with [t1] comes first. *)
Theorem order_commits_chronologically_stable (commits : list association) :
  order_commits_chronologically commits ≡ₚ commits
  ∧ StronglySorted (λ a b, commit_date a ≤ commit_date b)
      (order_commits_chronologically commits)
  ∧ (∀ t, filter (λ a, commit_date a = t) (order_commits_chronologically commits)
          = filter (λ a, commit_date a = t) commits)
  ∧ (∀ i j a b,
        order_commits_chronologically commits !! i = Some a →
        order_commits_chronologically commits !! j = Some b →
        commit_date a < commit_date b → (i < j)%nat).
Proof.
  unfold order_commits_chronologically. split_and!.
  - apply sorted_perm.
  - apply sorted_ascending.
  - intros t. apply sorted_filter.
  - intros i j a b Hi Hj Hab.
    destruct (decide (i < j)%nat) as [|Hge]; [done|]. exfalso.
    destruct (decide (i = j)) as [->|Hne].
    + rewrite Hi in Hj. injection Hj as ->. lia.
    + assert (commit_date b ≤ commit_date a); [|lia].
      eapply (ascending_lookup commit_date); [apply sorted_ascending|done..|lia].
Qed.

(** ** Properties of the paginated fetch *)

Section fetch_facts.
Variable self : extractor.
Variable jira : nat → reply.

Implicit Types (w : world) (q : string) (total : option Z).

Lemma fetch_loop_stop fuel q all_issues start_at total w :
  loop_continues start_at total = false →
  fetch_loop self jira fuel q all_issues start_at total w = Some (Done all_issues, w).
Proof. intros H. destruct fuel; simpl; by rewrite H. Qed.

Lemma fetch_loop_failed fuel q all_issues start_at total w e response :
  loop_continues start_at total = true →
  jira (length (requests w)) = RequestException e response →
  ∃ out, fetch_loop self jira (S fuel) q all_issues start_at total w
         = Some (SysExit 1,
                 World (requests w ++ [search_request self q start_at]) out (file_ops w)).
Proof.
  intros Hc Hj. cbn [fetch_loop]. rewrite Hc.
  unfold bind, make_jira_request. rewrite Hj. by eexists.
Qed.

Lemma fetch_loop_empty fuel q all_issues start_at total w body :
  loop_continues start_at total = true →
  jira (length (requests w)) = Answer body →
  default [] (json_issues body) = [] →
  fetch_loop self jira (S fuel) q all_issues start_at total w
  = Some (Done all_issues,
          World (requests w ++ [search_request self q start_at]) (stdout w) (file_ops w)).
Proof.
  intros Hc Hj He. cbn [fetch_loop]. rewrite Hc.
  unfold bind, make_jira_request. rewrite Hj, He. done.
Qed.

Lemma fetch_loop_page fuel q all_issues start_at total w body :
  loop_continues start_at total = true →
  jira (length (requests w)) = Answer body →
  default [] (json_issues body) ≠ [] →
  fetch_loop self jira (S fuel) q all_issues start_at total w
  = if len (default [] (json_issues body)) <? max_results
    then Some (Done (all_issues ++ default [] (json_issues body)),
               after_page self q all_issues start_at total w body)
    else fetch_loop self jira fuel q
           (all_issues ++ default [] (json_issues body))
           (start_at + len (default [] (json_issues body)))
           (known_total total body)
           (after_page self q all_issues start_at total w body).
Proof.
  intros Hc Hj He. cbn [fetch_loop]. rewrite Hc.
  unfold bind at 1. unfold make_jira_request. rewrite Hj.
  destruct (default [] (json_issues body)) as [|i page] eqn:Hp; [done|].
  unfold bind, print. cbn [requests stdout file_ops].
  unfold after_page, progress_line, known_total. rewrite Hp.
  destruct (len (i :: page) <? max_results); reflexivity.
Qed.

Lemma requests_after_page q all_issues start_at total w body :
  length (requests (after_page self q all_issues start_at total w body))
  = S (length (requests w)).
Proof. unfold after_page. cbn [requests]. rewrite length_app. simpl. lia. Qed.

(** The loop ends within [n + 1] iterations when the reply to its
    [(n+1)]-th request is a short page, whatever totals are reported. *)
Lemma fetch_loop_terminates n q all_issues start_at total w :
  short_page (jira (length (requests w) + n)) →
  ∃ r w', fetch_loop self jira (S n) q all_issues start_at total w = Some (r, w')
          ∧ (length (requests w') ≤ length (requests w) + S n)%nat.
Proof.
  revert all_issues start_at total w.
  induction n as [|n IH]; intros all_issues start_at total w Hs.
  - destruct (loop_continues start_at total) eqn:Hc.
    2:{ rewrite fetch_loop_stop by done. eexists _, _. split; [done|lia]. }
    rewrite Nat.add_0_r in Hs.
    destruct (jira (length (requests w))) as [body|] eqn:Hj; [|done]. simpl in Hs.
    destruct (decide (default [] (json_issues body) = [])) as [He|He].
    + erewrite fetch_loop_empty by done. eexists _, _. split; [done|].
      cbn [requests]. rewrite length_app. simpl. lia.
    + erewrite fetch_loop_page by done.
      apply Z.ltb_lt in Hs. rewrite Hs. eexists _, _. split; [done|].
      rewrite requests_after_page. lia.
  - destruct (loop_continues start_at total) eqn:Hc.
    2:{ rewrite fetch_loop_stop by done. eexists _, _. split; [done|lia]. }
    destruct (jira (length (requests w))) as [body|e response] eqn:Hj.
    2:{ edestruct (fetch_loop_failed (S n)) as [out ->]; [done..|].
        eexists _, _. split; [done|]. cbn [requests]. rewrite length_app. simpl. lia. }
    destruct (decide (default [] (json_issues body) = [])) as [He|He].
    + erewrite fetch_loop_empty by done. eexists _, _. split; [done|].
      cbn [requests]. rewrite length_app. simpl. lia.
    + erewrite fetch_loop_page by done.
      destruct (len (default [] (json_issues body)) <? max_results).
      * eexists _, _. split; [done|]. rewrite requests_after_page. lia.
      * edestruct (IH (all_issues ++ default [] (json_issues body))
                     (start_at + len (default [] (json_issues body)))
                     (known_total total body)
                     (after_page self q all_issues start_at total w body))
          as (r & w' & -> & Hlen).
        { rewrite requests_after_page.
          by replace (S (length (requests w)) + n)%nat
            with (length (requests w) + S n)%nat by lia. }
        eexists _, _. split; [done|].
        rewrite requests_after_page in Hlen. lia.
Qed.

End fetch_facts.

Section release_facts.
Variable self : extractor.
Variable jira : nat → reply.

Lemma truthy_Some o : truthy o = true → ∃ nm, o = Some nm ∧ default "" o = nm.
Proof. destruct o as [[|c s]|]; [done| |done]. intros _. by eexists. Qed.

Lemma get_tasks_resolved fuel w body :
  jira (length (requests w)) = Answer body →
  truthy (json_name body) = true →
  get_tasks_in_release self jira fuel w
  = finish_fetch (default "" (json_name body))
      (fetch_loop self jira fuel (release_jql (default "" (json_name body))) [] 0 None
         (after_lookup self (default "" (json_name body)) w)).
Proof.
  intros Hj Ht. unfold get_tasks_in_release, get_release_info.
  unfold bind at 1. unfold make_jira_request. rewrite Hj, Ht. cbn [negb].
  unfold bind at 1. unfold print at 1. cbn [requests stdout file_ops].
  unfold bind at 1. fold (release_jql (default "" (json_name body))).
  unfold after_lookup, finish_fetch.
  destruct (fetch_loop _ _ _ _ _ _ _ _) as [[[l| |] w']|]; reflexivity.
Qed.

Lemma get_tasks_unresolved fuel w body :
  jira (length (requests w)) = Answer body →
  truthy (json_name body) = false →
  get_tasks_in_release self jira fuel w
  = Some (SysExit 1,
          World (requests w ++ [Request (version_url self) None])
            (stdout w ++ ["Error: Could not find release with ID " +:+ release_id self])
            (file_ops w)).
Proof.
  intros Hj Ht. unfold get_tasks_in_release, get_release_info.
  unfold bind at 1. unfold make_jira_request. rewrite Hj, Ht. reflexivity.
Qed.

Lemma get_tasks_lookup_failed fuel w e response :
  jira (length (requests w)) = RequestException e response →
  ∃ out, get_tasks_in_release self jira fuel w
         = Some (SysExit 1,
                 World (requests w ++ [Request (version_url self) None]) out (file_ops w)).
Proof.
  intros Hj. unfold get_tasks_in_release, get_release_info.
  unfold bind at 1. unfold make_jira_request. rewrite Hj. by eexists.
Qed.

Lemma requests_finish_fetch nm r o w :
  finish_fetch nm r = Some (o, w) →
  ∃ w', r = Some (o, w') ∧ requests w = requests w'.
Proof.
  destruct r as [[[l| |] w']|]; simpl; intros; simplify_eq; eauto.
Qed.

End release_facts.

(** C4. The pagination loop of [get_tasks_in_release] terminates whenever
    some search request is answered by a short page (fewer issues than the
    page size, possibly none), whatever totals the server reports: with the
    short page as the reply to the [(n+1)]-th search, [n + 1] iterations are
    enough and at most [n + 1] searches follow the lookup. *)
Theorem pagination_terminates (self : extractor) (jira : nat → reply) (n : nat) :
  short_page (jira (S n)) →
  ∃ r w', get_tasks_in_release self jira (S n) world0 = Some (r, w')
          ∧ (length (requests w') ≤ n + 2)%nat.
Proof.
  intros Hs. destruct (jira 0%nat) as [body|e response] eqn:Hj.
  - destruct (truthy (json_name body)) eqn:Ht.
    + rewrite (get_tasks_resolved self jira _ world0 body) by done.
      edestruct (fetch_loop_terminates self jira n
                   (release_jql (default "" (json_name body))) [] 0 None
                   (after_lookup self (default "" (json_name body)) world0))
        as (r & w' & -> & Hlen); [done|].
      simpl in Hlen.
      destruct r as [l| |]; simpl; eexists _, _; (split; [done|]); simpl; lia.
    + rewrite (get_tasks_unresolved self jira _ world0 body) by done.
      eexists _, _. split; [done|]. simpl. lia.
  - edestruct (get_tasks_lookup_failed self jira (S n) world0) as [out ->]; [done|].
    eexists _, _. split; [done|]. simpl. lia.
Qed.

Lemma pagination_terminates_witness :
  let self := Extractor "1234" "release/v1.0" "out.sh" "https://jira" in
  let page (n : nat) := replicate n (Issue "ABC-1" []) in
  let jira (n : nat) :=
    match n with
    | 0%nat => Answer (Json (Some "Sprint 42") None None)
    | 1%nat => Answer (Json None (Some (page 100%nat)) (Some (JInt 1000)))
    | _ => Answer (Json None (Some (page 3%nat)) (Some (JInt 1000)))
    end in
  short_page (jira 2%nat)
  ∧ ∃ r w', get_tasks_in_release self jira 2 world0 = Some (r, w')
            ∧ (length (requests w') ≤ 1 + 2)%nat.
Proof.
  intros self page jira. split; [reflexivity|].
  apply (pagination_terminates self jira 1). reflexivity.
Defined.

(** C7. With a release that resolves and pages of 100, 100 and 37 issues,
    the first reporting a total of 237, [get_tasks_in_release] returns the
    237 issues of the three pages and sends exactly three search requests
    after the lookup, at offsets 0, 100 and 200. *)
Theorem three_pages_237 (self : extractor) (jira : nat → reply) (fuel : nat)
    (body : json) (o1 o2 o3 : option string) (t2 t3 : option json_value)
    (p1 p2 p3 : list issue) :
  jira 0%nat = Answer body → truthy (json_name body) = true →
  jira 1%nat = Answer (Json o1 (Some p1) (Some (JInt 237))) →
  jira 2%nat = Answer (Json o2 (Some p2) t2) →
  jira 3%nat = Answer (Json o3 (Some p3) t3) →
  length p1 = 100%nat → length p2 = 100%nat → length p3 = 37%nat →
  (3 ≤ fuel)%nat →
  ∃ w', get_tasks_in_release self jira fuel world0 = Some (Done (p1 ++ p2 ++ p3), w')
        ∧ length (p1 ++ p2 ++ p3) = 237%nat
        ∧ requests w' =
            [ Request (version_url self) None;
              search_request self (release_jql (default "" (json_name body))) 0;
              search_request self (release_jql (default "" (json_name body))) 100;
              search_request self (release_jql (default "" (json_name body))) 200 ].
Proof.
  intros H0 Ht H1 H2 H3 L1 L2 L3 Hf.
  destruct fuel as [|[|[|fuel]]]; [lia..|].
  rewrite (get_tasks_resolved self jira _ world0 body) by done.
  set (q := release_jql (default "" (json_name body))).
  assert (N1 : p1 ≠ []) by (by destruct p1).
  assert (N2 : p2 ≠ []) by (by destruct p2).
  assert (N3 : p3 ≠ []) by (by destruct p3).
  erewrite fetch_loop_page; [|done|exact H1|done].
  cbn [json_issues json_total default from_option id known_total read_total].
  replace (len p1 <? max_results) with false
    by (unfold len, max_results; rewrite L1; done).
  erewrite fetch_loop_page;
    [|unfold len; by rewrite L1|rewrite requests_after_page; exact H2|done].
  cbn [json_issues json_total default from_option id known_total read_total].
  replace (len p2 <? max_results) with false
    by (unfold len, max_results; rewrite L2; done).
  erewrite fetch_loop_page;
    [|unfold len; by rewrite L1, L2|rewrite !requests_after_page; exact H3|done].
  cbn [json_issues json_total default from_option id known_total read_total].
  replace (len p3 <? max_results) with true
    by (unfold len, max_results; rewrite L3; done).
  eexists. split_and!.
  - unfold finish_fetch. by rewrite <- !(assoc_L (++)).
  - rewrite !length_app. lia.
  - unfold after_page, after_lookup, world0. cbn [requests app].
    unfold len. rewrite L1, L2. reflexivity.
Qed.

Lemma three_pages_237_witness :
  let self := Extractor "1234" "release/v1.0" "out.sh" "https://jira" in
  let page (n : nat) := replicate n (Issue "ABC-1" []) in
  let jira (n : nat) :=
    match n with
    | 0%nat => Answer (Json (Some "Sprint 42") None None)
    | 1%nat => Answer (Json None (Some (page 100%nat)) (Some (JInt 237)))
    | 2%nat => Answer (Json None (Some (page 100%nat)) (Some (JInt 237)))
    | _ => Answer (Json None (Some (page 37%nat)) (Some (JInt 237)))
    end in
  ∃ w', get_tasks_in_release self jira 3 world0
        = Some (Done (page 100%nat ++ page 100%nat ++ page 37%nat), w')
        ∧ length (page 100%nat ++ page 100%nat ++ page 37%nat) = 237%nat
        ∧ length (requests w') = 4%nat.
Proof.
  intros self page jira.
  destruct (three_pages_237 self jira 3 (Json (Some "Sprint 42") None None)
              None None None (Some (JInt 237)) (Some (JInt 237))
              (page 100%nat) (page 100%nat) (page 37%nat))
    as (w' & Hrun & Hlen & Hreq);
    [reflexivity|reflexivity|reflexivity|reflexivity|reflexivity
    |reflexivity|reflexivity|reflexivity|lia|].
  exists w'. split_and!; [exact Hrun|exact Hlen|]. rewrite Hreq. reflexivity.
Defined.

(** C10. When a full page brings the number of accumulated issues to the
    total the loop works with, or beyond it, the loop ends with that page
    kept whole: it returns the accumulated issues and sends no request
    after the one that fetched the page, whatever the server would answer
    next. *)
Theorem full_page_reaching_total_stops (self : extractor) (jira : nat → reply)
    (fuel : nat) (q : string) (all_issues : list issue) (start_at : Z)
    (total : option Z) (w : world) (body : json) (t : Z) :
  start_at = len all_issues →
  loop_continues start_at total = true →
  jira (length (requests w)) = Answer body →
  len (default [] (json_issues body)) = max_results →
  known_total total body = Some t →
  t ≤ len (all_issues ++ default [] (json_issues body)) →
  fetch_loop self jira (S fuel) q all_issues start_at total w
  = Some (Done (all_issues ++ default [] (json_issues body)),
          after_page self q all_issues start_at total w body).
Proof.
  intros Hs Hc Hj Hfull Hknown Htot.
  assert (Hne : default [] (json_issues body) ≠ []).
  { intros E. rewrite E in Hfull. done. }
  rewrite (fetch_loop_page self jira fuel q all_issues start_at total w body) by done.
  rewrite Hfull. replace (max_results <? max_results) with false by done.
  rewrite Hknown. apply fetch_loop_stop. cbn [loop_continues]. apply Z.ltb_ge.
  unfold len in *. rewrite length_app in Htot. lia.
Qed.

Lemma full_page_reaching_total_stops_witness :
  let self := Extractor "1234" "release/v1.0" "out.sh" "https://jira" in
  let page := replicate 100 (Issue "ABC-1" []) in
  let body := Json None (Some page) (Some (JInt 50)) in
  let jira (n : nat) := Answer body in
  fetch_loop self jira 1 "q" [] 0 None world0
  = Some (Done page, after_page self "q" [] 0 None world0 body)
  ∧ 50 < len page.
Proof.
  intros self page body jira. split; [|reflexivity].
  apply (full_page_reaching_total_stops self jira 0 "q" [] 0 None world0 body 50);
    reflexivity || (vm_compute; discriminate).
Defined.

(** The example of C10 on the whole method: a reported total of 50 and a
    first page of 100 issues give 100 issues after one search request. *)
Lemma total_50_page_100 (self : extractor) (jira : nat → reply) (fuel : nat)
    (o : option string) (page : list issue) :
  jira 0%nat = Answer (Json (Some "Sprint 42") None None) →
  jira 1%nat = Answer (Json o (Some page) (Some (JInt 50))) →
  length page = 100%nat →
  ∃ w', get_tasks_in_release self jira (S fuel) world0 = Some (Done page, w')
        ∧ requests w' = [ Request (version_url self) None;
                          search_request self (release_jql "Sprint 42") 0 ].
Proof.
  intros H0 H1 L.
  rewrite (get_tasks_resolved self jira _ world0 _ H0) by done.
  cbn [json_name default from_option id].
  erewrite fetch_loop_page; [|done|exact H1|by destruct page].
  cbn [json_issues json_total default from_option id known_total read_total].
  replace (len page <? max_results) with false
    by (unfold len, max_results; rewrite L; done).
  rewrite fetch_loop_stop by (unfold len; by rewrite L).
  eexists. split; reflexivity.
Qed.

(** ** The fetched list is the concatenation of the pages *)

Section received_facts.
Variable self : extractor.
Variable jira : nat → reply.

Lemma received_0 first : received jira first 0 = [].
Proof. reflexivity. Qed.

Lemma received_S first n :
  received jira first (S n) = reply_issues (jira first) ++ received jira (S first) n.
Proof. reflexivity. Qed.

Lemma fetch_loop_received fuel q all_issues start_at total w l w' :
  fetch_loop self jira fuel q all_issues start_at total w = Some (Done l, w') →
  ∃ k, length (requests w') = (length (requests w) + k)%nat
       ∧ l = all_issues ++ received jira (length (requests w)) k.
Proof.
  revert all_issues start_at total w.
  induction fuel as [|fuel IH]; intros all_issues start_at total w Hrun;
    destruct (loop_continues start_at total) eqn:Hc.
  - simpl in Hrun. by rewrite Hc in Hrun.
  - rewrite fetch_loop_stop in Hrun by done. simplify_eq.
    exists 0%nat. split; [lia|]. by rewrite received_0, app_nil_r.
  - destruct (jira (length (requests w))) as [body|e response] eqn:Hj.
    2:{ edestruct (fetch_loop_failed self jira fuel) as [out Hf]; [done..|].
        rewrite Hf in Hrun. done. }
    assert (Hone : received jira (length (requests w)) 1
                   = default [] (json_issues body)).
    { rewrite received_S, received_0, Hj, app_nil_r. done. }
    destruct (decide (default [] (json_issues body) = [])) as [He|He].
    + erewrite fetch_loop_empty in Hrun by done. simplify_eq.
      exists 1%nat. cbn [requests]. rewrite length_app. split; [simpl; lia|].
      by rewrite Hone, He, app_nil_r.
    + erewrite fetch_loop_page in Hrun by done.
      destruct (len (default [] (json_issues body)) <? max_results).
      * simplify_eq. exists 1%nat. rewrite requests_after_page. split; [lia|].
        by rewrite Hone.
      * apply IH in Hrun as (k & Hlen & ->).
        rewrite requests_after_page in Hlen. exists (S k). split; [lia|].
        rewrite requests_after_page, received_S, Hj. cbn [reply_issues].
        by rewrite <- (assoc_L (++)).
  - rewrite fetch_loop_stop in Hrun by done. simplify_eq.
    exists 0%nat. split; [lia|]. by rewrite received_0, app_nil_r.
Qed.

End received_facts.

(** C5, as amended.  [get_tasks_in_release] returns the issues of the
    search replies it received, concatenated in order; nothing is removed,
    so the ticket keys of the result are unique exactly when no key is
    repeated within or across those pages. *)
Theorem fetched_issues_are_the_pages (self : extractor) (jira : nat → reply)
    (fuel : nat) (l : list issue) (w : world) :
  get_tasks_in_release self jira fuel world0 = Some (Done l, w) →
  l = received jira 1 (length (requests w) - 1)
  ∧ (NoDup (key <$> l)
     ↔ NoDup (key <$> received jira 1 (length (requests w) - 1))).
Proof.
  intros Hrun. cut (l = received jira 1 (length (requests w) - 1)).
  { intros E. split; [done|]. by rewrite <- E. }
  destruct (jira 0%nat) as [body|e response] eqn:Hj.
  - destruct (truthy (json_name body)) eqn:Ht.
    + rewrite (get_tasks_resolved self jira _ world0 body) in Hrun by done.
      apply requests_finish_fetch in Hrun as (w' & Hrun & ->).
      apply fetch_loop_received in Hrun as (k & Hlen & ->).
      rewrite Hlen. simpl. by rewrite Nat.sub_0_r.
    + rewrite (get_tasks_unresolved self jira _ world0 body) in Hrun by done. done.
  - edestruct (get_tasks_lookup_failed self jira fuel world0) as [out Hf]; [done|].
    rewrite Hf in Hrun. done.
Qed.

Lemma fetched_issues_are_the_pages_witness :
  let self := Extractor "1234" "release/v1.0" "out.sh" "https://jira" in
  let l := [Issue "ABC-1" []; Issue "ABC-2" []] in
  let jira (n : nat) :=
    match n with
    | 0%nat => Answer (Json (Some "Sprint 42") None None)
    | _ => Answer (Json None (Some l) (Some (JInt 2)))
    end in
  ∃ w, get_tasks_in_release self jira 1 world0 = Some (Done l, w)
       ∧ l = received jira 1 (length (requests w) - 1)
       ∧ (NoDup (key <$> l)
          ↔ NoDup (key <$> received jira 1 (length (requests w) - 1))).
Proof.
  intros self l jira. eexists. split; [lazy; reflexivity|].
  apply (fetched_issues_are_the_pages self jira 1). lazy. reflexivity.
Defined.

(** C5, as stated, fails: a server whose second page repeats the last issue
    of the first one (offset pagination over a set that changed meanwhile)
    makes [get_tasks_in_release] return that ticket key twice. *)
Lemma repeated_issue_counterexample :
  let self := Extractor "1234" "release/v1.0" "out.sh" "https://jira" in
  let numbered (i : nat) := Issue ("ABC-" +:+ show_Z (Z.of_nat i)) [] in
  let jira (n : nat) :=
    match n with
    | 0%nat => Answer (Json (Some "Sprint 42") None None)
    | 1%nat => Answer (Json None (Some (numbered <$> seq 1 100)) (Some (JInt 101)))
    | _ => Answer (Json None (Some [numbered 100%nat]) (Some (JInt 101)))
    end in
  ∃ l w, get_tasks_in_release self jira 2 world0 = Some (Done l, w)
         ∧ ¬ NoDup (key <$> l).
Proof.
  intros self numbered jira. eexists _, _. split; [vm_compute; reflexivity|].
  intros Hnd. rewrite NoDup_alt in Hnd.
  specialize (Hnd 99%nat 100%nat "ABC-100").
  assert (99 = 100)%nat; [|lia]. apply Hnd; vm_compute; reflexivity.
Qed.

(** C9. When the lookup of the release is answered without a usable name,
    the run reports that the release could not be found and exits with
    status 1; the lookup is the only request sent, so no search is made. *)
Theorem unresolved_release_aborts (self : extractor) (jira : nat → reply)
    (repo : list commit) (fromtimestamp : Z → Z) (now : string)
    (re_other : string → string → option bool) (disk : file_system)
    (fuel : nat) (body : json) :
  jira 0%nat = Answer body →
  truthy (json_name body) = false →
  run self jira repo fromtimestamp now re_other disk fuel world0
  = Some (SysExit 1,
          World [Request (version_url self) None]
            [ "Starting JIRA Release Commit Extractor for release ID: "
                +:+ release_id self;
              "Error: Could not find release with ID " +:+ release_id self ]
            []).
Proof.
  intros Hj Ht. unfold run. unfold bind at 1. unfold print at 1.
  unfold bind at 1.
  erewrite get_tasks_unresolved; [reflexivity|exact Hj|exact Ht].
Qed.

Lemma unresolved_release_aborts_witness :
  let self := Extractor "1234" "release/v1.0" "out.sh" "https://jira" in
  let jira (n : nat) := Answer (Json None None None) in
  run self jira [] (λ t, t) "2024-01-01 00:00:00" no_other sound_disk 0 world0
  = Some (SysExit 1,
          World [Request "https://jira/rest/api/2/version/1234" None]
            [ "Starting JIRA Release Commit Extractor for release ID: 1234";
              "Error: Could not find release with ID 1234" ]
            []).
Proof.
  intros self jira.
  apply (unresolved_release_aborts self jira [] (λ t, t) "2024-01-01 00:00:00"
           no_other sound_disk 0 (Json None None None)); reflexivity.
Defined.

(** A failed lookup ends the run in the same way, with the report of
    [_make_jira_request] instead. *)
Lemma failed_lookup_aborts (self : extractor) (jira : nat → reply)
    (repo : list commit) (fromtimestamp : Z → Z) (now : string)
    (re_other : string → string → option bool) (disk : file_system)
    (fuel : nat) (e : string) (response : option http_response) :
  jira 0%nat = RequestException e response →
  ∃ out, run self jira repo fromtimestamp now re_other disk fuel world0
         = Some (SysExit 1, World [Request (version_url self) None] out []).
Proof.
  intros Hj. unfold run. unfold bind at 1. unfold print at 1.
  unfold bind at 1.
  edestruct (get_tasks_lookup_failed self jira fuel) as [out ->]; [exact Hj|].
  by eexists.
Qed.

(** ** Properties of the commit scan *)

Section scan_facts.
Variable fromtimestamp : Z → Z.
Variable re_other : string → string → option bool.

Implicit Types (st : list association * gset string) (c : commit).

Lemma scan_keys_seen c keys st st' :
  hexsha c ∈ st.2 → scan_keys fromtimestamp re_other c keys st = Some st' → st' = st.
Proof.
  intros Hin. induction keys as [|k keys IH]; simpl; [congruence|].
  destruct (key_found re_other k (message c)) as [[|]|]; [|done..].
  by rewrite bool_decide_eq_true_2.
Qed.

(** One commit: either no key matches and nothing changes, or the first
    matching key is recorded unless the hash was already used. *)
Lemma scan_keys_spec c keys st st' :
  scan_keys fromtimestamp re_other c keys st = Some st' →
  (Forall (λ k, key_found re_other k (message c) = Some false) keys ∧ st' = st)
  ∨ ∃ k, first_matching re_other keys (message c) k
         ∧ ((hexsha c ∈ st.2 ∧ st' = st)
            ∨ ((hexsha c ∉ st.2)
               ∧ st' = (st.1 ++ [association_of fromtimestamp k c],
                        st.2 ∪ {[hexsha c]}))).
Proof.
  induction keys as [|k keys IH]; simpl.
  - intros [= <-]. left. by split.
  - destruct (key_found re_other k (message c)) as [[|]|] eqn:Hm; [| |done].
    + intros Hrun. right. exists k. split.
      { exists [], keys. split_and!; [done|done|]. intros k' Hk'. by inversion Hk'. }
      case_bool_decide as Hin.
      * left. split; [done|]. by eapply scan_keys_seen.
      * right. split; [done|]. eapply scan_keys_seen; [|done]. simpl.
        apply elem_of_union_r. by apply elem_of_singleton.
    + intros Hrun. destruct (IH Hrun) as [[Hall ->]|(k' & Hfirst & Hst)].
      * left. split; [|done]. by constructor.
      * right. exists k'. split; [|done].
        destruct Hfirst as (pre & post & -> & Hk' & Hpre).
        exists (k :: pre), post. split_and!; [done|done|].
        intros k'' [->|?]%elem_of_cons; auto.
Qed.

Lemma scan_keys_inv keys log c ks st st' :
  c ∈ log → scan_inv fromtimestamp re_other keys log st →
  (∀ k, first_matching re_other ks (message c) k → first_matching re_other keys (message c) k) →
  scan_keys fromtimestamp re_other c ks st = Some st' →
  scan_inv fromtimestamp re_other keys log st'
  ∧ st.2 ⊆ st'.2
  ∧ (∀ k, k ∈ ks → key_found re_other k (message c) = Some true → hexsha c ∈ st'.2).
Proof.
  intros Hc (Hset & Hnd & Hall) Hks Hrun.
  destruct (scan_keys_spec _ _ _ _ Hrun)
    as [[Hno ->]|(k & Hfirst & [[Hin ->]|[Hnin ->]])].
  - split_and!; [done|done|]. intros k Hk Hm.
    rewrite Forall_forall in Hno. specialize (Hno k Hk). congruence.
  - split_and!; [done|done|]. done.
  - split_and!; [|simpl; apply union_subseteq_l
                 |simpl; intros; apply elem_of_union_r; by apply elem_of_singleton].
    unfold scan_inv. cbn [fst snd]. split_and!.
    + intros h. rewrite fmap_app, elem_of_app, elem_of_union, Hset. simpl.
      rewrite elem_of_singleton, list_elem_of_singleton. done.
    + rewrite fmap_app. apply NoDup_app. split_and!; [done| |apply NoDup_singleton].
      simpl. intros h Hh [->|[]%elem_of_nil]%elem_of_cons.
      by apply Hnin, Hset.
    + intros a [Ha| ->%list_elem_of_singleton]%elem_of_app; [by apply Hall|].
      exists c. split_and!; [done|by apply Hks|done].
Qed.

Lemma scan_commits_inv keys log cs st st' :
  cs ⊆ log → scan_inv fromtimestamp re_other keys log st →
  scan_commits fromtimestamp re_other cs keys st = Some st' →
  scan_inv fromtimestamp re_other keys log st'
  ∧ st.2 ⊆ st'.2
  ∧ (∀ c k, c ∈ cs → k ∈ keys → key_found re_other k (message c) = Some true →
            hexsha c ∈ st'.2).
Proof.
  revert st. induction cs as [|c cs IH]; intros st Hsub Hinv; simpl.
  - intros [= <-]. split_and!; [done|done|]. intros c k Hc. by inversion Hc.
  - destruct (scan_keys fromtimestamp re_other c keys st) as [st1|] eqn:Hk; [|done].
    intros Hrun.
    destruct (scan_keys_inv keys log c keys st st1) as (Hinv1 & Hsub1 & Hcov1);
      [apply Hsub; by left|done|done|done|].
    destruct (IH st1) as (Hinv' & Hsub' & Hcov');
      [intros x Hx; apply Hsub; by right|done|done|].
    split_and!; [done|by etrans|].
    intros c' k [->|Hc']%elem_of_cons Hkin Hm; [|by eapply Hcov'].
    apply Hsub'. by eapply Hcov1.
Qed.

Lemma scan_inv_empty keys log : scan_inv fromtimestamp re_other keys log ([], ∅).
Proof.
  split_and!; simpl.
  - intros h. split; [by intros ?%not_elem_of_empty|by intros ?%elem_of_nil].
  - constructor.
  - intros a Ha. by inversion Ha.
Qed.

Lemma scan_keys_total c keys st :
  Forall (λ k, literal_key k = true) keys →
  is_Some (scan_keys fromtimestamp re_other c keys st).
Proof.
  intros Hl. revert st. induction Hl as [|k keys Hk _ IH]; intros st; simpl.
  - by eexists.
  - unfold key_found. destruct (matcher_literal_total k (message c) Hk) as [b ->].
    destruct b; [case_bool_decide|]; apply IH.
Qed.

Lemma scan_commits_total cs keys st :
  Forall (λ k, literal_key k = true) keys →
  is_Some (scan_commits fromtimestamp re_other cs keys st).
Proof.
  intros Hl. revert st. induction cs as [|c cs IH]; intros st; simpl.
  - by eexists.
  - destruct (scan_keys_total c keys st Hl) as [st1 ->]. apply IH.
Qed.

End scan_facts.

(** With ticket keys free of special characters the scan always returns. *)
Lemma get_commit_ids_for_tickets_returns (repo : list commit)
    (fromtimestamp : Z → Z) (re_other : string → string → option bool)
    (issues : list issue) (w : world) :
  Forall (λ i, literal_key (key i) = true) issues →
  ∃ out w', get_commit_ids_for_tickets repo fromtimestamp re_other issues w
            = Some (Done out, w').
Proof.
  intros Hl. unfold get_commit_ids_for_tickets, associate.
  destruct (scan_commits_total fromtimestamp re_other repo (key <$> issues) ([], ∅))
    as [st ->]; [by apply Forall_fmap|].
  simpl. by eexists _, _.
Qed.

(** C2. The associations returned by [get_commit_ids_for_tickets] carry
    pairwise distinct commit hashes; each of them pairs a commit of the
    history with the first ticket key, in the order of the fetched issues,
    that matches its message; every commit matched by some key has an
    association; and in a history without repeated hashes the association
    of a commit carries the first key that matches that commit. *)
Theorem one_association_per_commit (repo : list commit) (fromtimestamp : Z → Z)
    (re_other : string → string → option bool) (issues : list issue) (w w' : world) (out : list association) :
  get_commit_ids_for_tickets repo fromtimestamp re_other issues w = Some (Done out, w') →
  NoDup (commit_hash <$> out)
  ∧ (∀ a, a ∈ out →
       ∃ c, c ∈ repo
            ∧ first_matching re_other (key <$> issues) (message c) (ticket_key a)
            ∧ a = association_of fromtimestamp (ticket_key a) c)
  ∧ (∀ c k, c ∈ repo → k ∈ key <$> issues →
            key_found re_other k (message c) = Some true →
            ∃ a, a ∈ out ∧ commit_hash a = hexsha c)
  ∧ (NoDup (hexsha <$> repo) →
     ∀ c a, c ∈ repo → a ∈ out → commit_hash a = hexsha c →
            first_matching re_other (key <$> issues) (message c) (ticket_key a)).
Proof.
  unfold get_commit_ids_for_tickets, associate.
  destruct (scan_commits fromtimestamp re_other repo (key <$> issues) ([], ∅))
    as [[l seen]|] eqn:Hscan; simpl; [|done].
  intros Hrun. unfold bind, print, ret in Hrun. simplify_eq.
  destruct (scan_commits_inv fromtimestamp re_other (key <$> issues) repo repo ([], ∅) (out, seen))
    as ((Hset & Hnd & Hall) & _ & Hcov);
    [done|apply scan_inv_empty|done|].
  simpl in *. split_and!; [done|done| |].
  - intros c k Hc Hk Hm. specialize (Hcov c k Hc Hk Hm).
    apply Hset, list_elem_of_fmap in Hcov as (a & Ha & Hin). eauto.
  - intros Hrepo c a Hc Ha Hh.
    destruct (Hall a Ha) as (c' & Hc' & Hfirst & Heq).
    assert (hexsha c' = hexsha c) as Hsame by (rewrite <- Hh, Heq at 1; done).
    apply list_elem_of_lookup in Hc as [i Hi]. apply list_elem_of_lookup in Hc' as [j Hj].
    assert (i = j) as ->.
    { eapply NoDup_lookup; [exact Hrepo| |];
        rewrite list_lookup_fmap; [by rewrite Hi|by rewrite Hj; simpl; rewrite Hsame]. }
    by simplify_eq.
Qed.

Lemma one_association_per_commit_witness :
  let repo := [ Commit "c1" "ABC-1 fix" 100; Commit "c2" "unrelated" 50;
                Commit "c3" "ABC-2 and ABC-1 combined" 200 ] in
  let issues := [ Issue "ABC-1" []; Issue "ABC-2" [] ] in
  let out := [ Association "ABC-1" "c1" 100 "ABC-1 fix";
               Association "ABC-1" "c3" 200 "ABC-2 and ABC-1 combined" ] in
  ∃ w', get_commit_ids_for_tickets repo (λ t, t) no_other issues world0
        = Some (Done out, w')
        ∧ NoDup (commit_hash <$> out).
Proof.
  intros repo issues out. eexists. split; [lazy; reflexivity|].
  eapply (one_association_per_commit repo (λ t, t) no_other issues world0).
  lazy. reflexivity.
Defined.

(** ** Properties of the generated script *)

Section script_facts.

Lemma append_commits_flat_map acc ordered :
  append_commits acc ordered = acc ++ flat_map script_entry ordered.
Proof.
  revert acc. induction ordered as [|a ordered IH]; intros acc; simpl.
  - by rewrite app_nil_r.
  - rewrite IH. unfold script_entry. by rewrite <- !(assoc_L (++)).
Qed.

Lemma script_content_lines self now ordered :
  script_content self now ordered
  = [ "#!/bin/bash"; "";
      "# Cherry-pick script for JIRA release " +:+ release_id self;
      "# Generated on " +:+ now; ""; "# Exit on error" ]
    ++ ["set -e"]
    ++ [""; "# Checkout the target branch"]
    ++ ["git checkout " +:+ target_branch self]
    ++ [""; "# Cherry-pick each commit"; ""]
    ++ flat_map script_entry ordered
    ++ ["echo 'Cherry-picking completed successfully!'"].
Proof.
  unfold script_content. rewrite append_commits_flat_map.
  unfold script_header. by rewrite <- !(assoc_L (++)).
Qed.

Lemma first_line_no_newline s : no_newline (Str.first_line s) = true.
Proof.
  induction s as [|c s IH]; simpl; [done|].
  destruct (Ascii.eqb c Char.newline) eqn:E; [done|].
  unfold no_newline in *. simpl. by rewrite E, IH.
Qed.


Lemma split_lines_cons s : ∃ x r, split_lines s = x :: r.
Proof.
  induction s as [|c s (x & r & IH)]; simpl; [by eexists _, _|].
  destruct (Ascii.eqb c Char.newline); [by eexists _, _|].
  rewrite IH. by eexists _, _.
Qed.

Lemma split_lines_app s t :
  no_newline s = true →
  ∃ x r, split_lines t = x :: r ∧ split_lines (s +:+ t) = (s +:+ x) :: r.
Proof.
  destruct (split_lines_cons t) as (x & r & Ht). intros Hs. exists x, r.
  split; [done|]. induction s as [|c s IH]; [done|].
  unfold no_newline in Hs. simpl in Hs. apply andb_true_iff in Hs as [Hc Hs].
  apply negb_true_iff in Hc. rewrite app_cons. simpl. rewrite Hc.
  by rewrite (IH Hs).
Qed.

Lemma split_lines_line s : no_newline s = true → split_lines s = [s].
Proof.
  intros Hs. destruct (split_lines_app s "" Hs) as (x & r & Ht & Hst).
  simpl in Ht. simplify_eq. by rewrite !app_empty_r in Hst.
Qed.

(** Splitting the joined text gives the lines back when no line holds a
    line feed. *)
Lemma split_lines_join l :
  l ≠ [] → Forall (λ s, no_newline s = true) l →
  split_lines (Str.join nl l) = l.
Proof.
  intros Hne Hl. induction Hl as [|s l Hs Hl IH]; [done|].
  destruct l as [|s' l].
  - simpl. by apply split_lines_line.
  - change (Str.join nl (s :: s' :: l)) with (s +:+ nl +:+ Str.join nl (s' :: l)).
    destruct (split_lines_app s (nl +:+ Str.join nl (s' :: l)) Hs)
      as (x & r & Ht & ->).
    change (nl +:+ Str.join nl (s' :: l))
      with (String Char.newline (Str.join nl (s' :: l))) in Ht.
    cbn [split_lines] in Ht. rewrite Ascii.eqb_refl, IH in Ht by done.
    simplify_eq. by rewrite app_empty_r.
Qed.

End script_facts.

(** The lines of the written text are the lines of [script_content] when
    the texts pasted into them (release identifier, date, branch, ticket
    keys, hashes) hold no line feed. *)
Lemma script_text_lines (self : extractor) (now : string)
    (ordered_commits : list association) :
  no_newline (release_id self) = true → no_newline now = true →
  no_newline (target_branch self) = true →
  Forall (λ a, no_newline (ticket_key a) = true
               ∧ no_newline (commit_hash a) = true) ordered_commits →
  split_lines (Str.join nl (script_content self now ordered_commits))
  = script_content self now ordered_commits.
Proof.
  intros Hid Hnow Hbr Hall.
  assert (Happ : ∀ s t, no_newline s = true → no_newline t = true →
                        no_newline (s +:+ t) = true).
  { intros s t Hs Ht. induction s as [|c s IH]; [done|].
    unfold no_newline in *. rewrite app_cons. simpl in *.
    apply andb_true_iff in Hs as [-> Hs]. by rewrite IH. }
  apply split_lines_join.
  { unfold script_content. by destruct (append_commits _ _). }
  rewrite script_content_lines.
  repeat (apply Forall_cons; split; [by (reflexivity || (apply Happ; done))|]).
  apply Forall_app. split; [|by repeat constructor].
  induction Hall as [|a l [Hk Hh] _ IH]; simpl; [constructor|].
  repeat (apply Forall_cons; split; [|]); [| |done|exact IH].
  - repeat (apply Happ; [done|]). apply first_line_no_newline.
  - by apply Happ.
Qed.

(** What [generate_cherry_pick_script] does: it returns the path after the
    write and the [chmod], or raises, having at most written the file. *)
Lemma generate_cases (self : extractor) (now : string) (disk : file_system)
    (ordered : list association) (w : world) :
  ∃ r w', generate_cherry_pick_script self now disk ordered w = Some (r, w')
    ∧ requests w' = requests w
    ∧ ((r = Done (output_file self)
        ∧ file_ops w' = file_ops w ++ script_written self now ordered)
       ∨ (∃ e, r = Raised e)
         ∧ (file_ops w' = file_ops w
            ∨ ∃ partial,
                file_ops w' = file_ops w ++ [WriteFile (output_file self) partial])).
Proof.
  unfold generate_cherry_pick_script, bind, write_file, chmod, print, ret.
  destruct (fs_write disk _ _) as [|e left_behind].
  - cbn [requests stdout file_ops]. destruct (fs_chmod disk _ _) as [e|].
    + eexists _, _. split_and!; [done|done|]. right. split; [by eexists|].
      right. by eexists.
    + eexists _, _. split_and!; [done|done|]. left. split; [done|].
      unfold script_written. by rewrite <- (assoc_L (++)).
  - eexists _, _. split_and!; [done|done|]. right. split; [by eexists|].
    cbn [file_ops]. destruct left_behind as [partial|].
    + right. by eexists.
    + left. by rewrite app_nil_r.
Qed.

Lemma generate_done (self : extractor) (now : string) (disk : file_system)
    (ordered : list association) (w w' : world) (p : string) :
  generate_cherry_pick_script self now disk ordered w = Some (Done p, w') →
  p = output_file self
  ∧ file_ops w' = file_ops w ++ script_written self now ordered.
Proof.
  intros Hrun.
  destruct (generate_cases self now disk ordered w)
    as (r & w1 & Hg & _ & [[-> Hf]|[[e ->] _]]);
    rewrite Hg in Hrun; by simplify_eq.
Qed.





(** * Further properties *)

(** ** The matcher *)

Lemma lower_length (s : string) : String.length (Str.lower s) = String.length s.
Proof. induction s as [|c s IH]; simpl; [done|]. by rewrite IH. Qed.

(** X1. A key without special characters matches the message that consists
    of the key alone, in whatever letter case the message is written. *)
Theorem key_matches_itself (K M : string) :
  literal_key K = true → Str.lower M = Str.lower K →
  ticket_matches K M = Some true.
Proof.
  intros HK HM. unfold ticket_matches. rewrite (parse_literal K HK). simpl.
  f_equal. apply search_literal_pattern. exists "", M, "".
  split_and!; [|done..]. by rewrite app_empty_l, app_empty_r.
Qed.

Lemma key_matches_itself_witness :
  literal_key "PROJ-12" = true
  ∧ Str.lower "proj-12" = Str.lower "PROJ-12"
  ∧ ticket_matches "PROJ-12" "proj-12" = Some true.
Proof.
  split_and!; [reflexivity|reflexivity|].
  apply (key_matches_itself "PROJ-12" "proj-12"); reflexivity.
Defined.

(** X2. A message shorter than a key without special characters is never
    matched by it; in particular an empty message matches no such key but
    the empty one. *)
Theorem shorter_message_never_matches (K M : string) :
  literal_key K = true → (String.length M < String.length K)%nat →
  ticket_matches K M = Some false.
Proof.
  intros HK Hlen. unfold ticket_matches. rewrite (parse_literal K HK). simpl.
  f_equal. apply not_true_is_false. intros Hs.
  apply search_literal_pattern in Hs as (pre & mid & post & -> & Hl & _).
  apply (f_equal String.length) in Hl. rewrite !lower_length in Hl.
  rewrite !length_app_s in Hlen. lia.
Qed.

Lemma shorter_message_never_matches_witness :
  literal_key "PROJ-12" = true
  ∧ (String.length "PROJ-1" < String.length "PROJ-12")%nat
  ∧ ticket_matches "PROJ-12" "PROJ-1" = Some false.
Proof.
  split_and!; [reflexivity|simpl; lia|].
  apply (shorter_message_never_matches "PROJ-12" "PROJ-1"); [reflexivity|simpl; lia].
Defined.

Section dotted_keys.

Implicit Types (s K M : string) (c : ascii).

Lemma match_here_key_nodes K q prev s :
  Re.match_here (key_nodes K ++ q) prev s = true ↔
  ∃ mid rest, s = mid +:+ rest ∧ key_accepts K mid = true
              ∧ Re.match_here q (last_or prev mid) rest = true.
Proof.
  revert prev s. induction K as [|c K IH]; intros prev s.
  - split.
    + intros H. by exists "", s.
    + intros (mid & rest & -> & Hl & H). by destruct mid.
  - cbn [key_nodes app]. split.
    + destruct s as [|x s].
      { by destruct (Ascii.eqb c "."). }
      intros H.
      assert (key_char_accepts c x = true
              ∧ Re.match_here (key_nodes K ++ q) (Some x) s = true) as [Hc Hr].
      { unfold key_char_accepts. destruct (Ascii.eqb c ".");
          cbn [Re.match_here] in H; by apply andb_true_iff in H. }
      apply IH in Hr as (mid & rest & -> & Hl & Hr).
      exists (String x mid), rest. rewrite last_or_cons.
      split_and!; [done| |done]. cbn [key_accepts]. by rewrite Hc, Hl.
    + intros (mid & rest & -> & Hl & H). destruct mid as [|x mid]; [done|].
      cbn [key_accepts] in Hl. apply andb_true_iff in Hl as [Hc Hl].
      rewrite last_or_cons in H. rewrite app_cons.
      assert (Hr : Re.match_here (key_nodes K ++ q) (Some x) (mid +:+ rest) = true)
        by (apply IH; eauto).
      unfold key_char_accepts in Hc.
      destruct (Ascii.eqb c "."); cbn [Re.match_here]; by rewrite Hc, Hr.
Qed.

Lemma parse_fuel_dotted K n :
  dotted_key K = true → (String.length K < n)%nat →
  Re.parse_fuel (S n) (K +:+ "(?!\d)") = Some (key_nodes K ++ [Re.NotAhead Re.Digit]).
Proof.
  revert n. induction K as [|c K IH]; intros n HK Hn.
  - destruct n as [|n]; [simpl in Hn; lia|]. reflexivity.
  - cbn [dotted_key Str.all] in HK. apply andb_true_iff in HK as [Hc HK].
    simpl in Hn. destruct n as [|n]; [lia|]. rewrite app_cons.
    remember (S n) as m. cbn [Re.parse_fuel key_nodes].
    assert (Hs : ∀ p, Str.strip (String "(" p) (String c (K +:+ "(?!\d)")) = None).
    { intros p. cbn [Str.strip]. destruct (Ascii.eqb_spec "(" c) as [<-|]; [|done].
      by vm_compute in Hc. }
    rewrite !Hs. subst m. rewrite IH by (done || lia).
    destruct (Ascii.eqb c ".") eqn:Hd; [done|].
    simpl in Hc. apply negb_true_iff in Hc. by rewrite Hc.
Qed.

Lemma parse_dotted K :
  dotted_key K = true →
  Re.parse (ticket_pattern K)
  = Some (Re.NotBehind Re.Word :: key_nodes K ++ [Re.NotAhead Re.Digit]).
Proof.
  intros HK. unfold Re.parse, ticket_pattern.
  rewrite length_app_s, length_app_s.
  change (String.length "(?<!\w)") with 7%nat.
  change (String.length "(?!\d)") with 6%nat.
  set (n := (String.length K + 6)%nat).
  change (S (7 + n)) with (S (S (6 + n))).
  set (r := K +:+ "(?!\d)").
  change ("(?<!\w)" +:+ r) with (String "(" ("?<!\w)" +:+ r)).
  remember (S (6 + n)) as m. cbn [Re.parse_fuel].
  change (Str.strip "(?<!\w)" (String "(" ("?<!\w)" +:+ r))) with (Some r).
  subst m r. rewrite parse_fuel_dotted by (done || lia). done.
Qed.

End dotted_keys.

(** X3. A dot in a ticket key is a wildcard: for a key made of ordinary
    characters and dots, the test succeeds exactly when the message holds,
    between a position not preceded by a word character and a position not
    followed by a digit, a text of the length of the key in which every
    dot of the key faces any character but a line feed and every other
    character faces itself up to letter case. *)
Theorem dotted_key_wildcard (K M : string) :
  dotted_key K = true →
  ∃ b : bool,
    ticket_matches K M = Some b
    ∧ (b = true ↔
       ∃ pre mid post : string,
         M = pre +:+ mid +:+ post
         ∧ key_accepts K mid = true
         ∧ Re.blocked Re.Word (Str.last pre) = false
         ∧ Re.blocked Re.Digit (Str.head post) = false).
Proof.
  intros HK. eexists. split.
  { unfold ticket_matches. rewrite (parse_dotted K HK). reflexivity. }
  unfold Re.search. rewrite search_from_spec. split.
  - intros (pre & rest & -> & H). cbn [Re.match_here] in H.
    apply andb_true_iff in H as [Hb H].
    apply match_here_key_nodes in H as (mid & post & -> & Hl & H).
    cbn [Re.match_here] in H. rewrite andb_true_r in H.
    exists pre, mid, post. rewrite last_or_None in Hb.
    split_and!; [done|done|by apply negb_true_iff|by apply negb_true_iff].
  - intros (pre & mid & post & -> & Hl & Hb & Ha).
    exists pre, (mid +:+ post). split; [done|]. cbn [Re.match_here].
    rewrite last_or_None, Hb. cbn [negb andb]. apply match_here_key_nodes.
    exists mid, post. split_and!; [done|done|]. cbn [Re.match_here].
    by rewrite Ha.
Qed.

Lemma dotted_key_wildcard_witness :
  dotted_key "A.1" = true
  ∧ ∃ b : bool,
      ticket_matches "A.1" "fix AX1" = Some b
      ∧ (b = true ↔
         ∃ pre mid post : string,
           "fix AX1" = pre +:+ mid +:+ post
           ∧ key_accepts "A.1" mid = true
           ∧ Re.blocked Re.Word (Str.last pre) = false
           ∧ Re.blocked Re.Digit (Str.head post) = false).
Proof.
  split; [reflexivity|]. apply (dotted_key_wildcard "A.1" "fix AX1"). reflexivity.
Defined.

(** ** The paginated fetch *)

Section fetch_more.
Variable self : extractor.
Variable jira : nat → reply.

Implicit Types (w : world) (q : string).

(** Once the total is known, every further page brings at least one issue,
    so the distance to the total bounds the iterations that are left. *)
Lemma fetch_loop_bounded fuel q all_issues start_at t w :
  (Z.to_nat (t - start_at) ≤ fuel)%nat →
  ∃ r w', fetch_loop self jira fuel q all_issues start_at (Some t) w = Some (r, w')
          ∧ (length (requests w') ≤ length (requests w) + Z.to_nat (t - start_at))%nat.
Proof.
  revert all_issues start_at w.
  induction fuel as [|fuel IH]; intros all_issues start_at w Hfuel;
    destruct (loop_continues start_at (Some t)) eqn:Hc.
  - simpl in Hc. apply Z.ltb_lt in Hc. lia.
  - rewrite fetch_loop_stop by done. eexists _, _. split; [done|lia].
  - pose proof Hc as Hlt. simpl in Hlt. apply Z.ltb_lt in Hlt.
    destruct (jira (length (requests w))) as [body|e response] eqn:Hj.
    2:{ edestruct (fetch_loop_failed self jira fuel) as [out ->]; [done..|].
        eexists _, _. split; [done|]. cbn [requests]. rewrite length_app. simpl. lia. }
    destruct (decide (default [] (json_issues body) = [])) as [He|He].
    + erewrite fetch_loop_empty by done. eexists _, _. split; [done|].
      cbn [requests]. rewrite length_app. simpl. lia.
    + erewrite fetch_loop_page by done.
      assert (0 < len (default [] (json_issues body))) as Hpos.
      { unfold len. destruct (default [] (json_issues body)); [done|]. simpl. lia. }
      destruct (len (default [] (json_issues body)) <? max_results).
      * eexists _, _. split; [done|]. rewrite requests_after_page. lia.
      * cbn [known_total].
        edestruct (IH (all_issues ++ default [] (json_issues body))
                     (start_at + len (default [] (json_issues body)))
                     (after_page self q all_issues start_at (Some t) w body))
          as (r & w' & -> & Hlen); [lia|].
        eexists _, _. split; [done|].
        rewrite requests_after_page in Hlen. lia.
  - rewrite fetch_loop_stop by done. eexists _, _. split; [done|lia].
Qed.

Lemma fetch_loop_offsets fuel q all_issues start_at total w r w' :
  fetch_loop self jira fuel q all_issues start_at total w = Some (r, w') →
  ∃ k, requests w'
       = requests w
         ++ ((λ i, search_request self q
                     (start_at + len (received jira (length (requests w)) i)))
             <$> seq 0 k).
Proof.
  revert all_issues start_at total w.
  induction fuel as [|fuel IH]; intros all_issues start_at total w Hrun;
    destruct (loop_continues start_at total) eqn:Hc.
  - simpl in Hrun. by rewrite Hc in Hrun.
  - rewrite fetch_loop_stop in Hrun by done. simplify_eq.
    exists 0%nat. by rewrite app_nil_r.
  - assert (Hone : ∀ out fs,
              World (requests w ++ [search_request self q start_at]) out fs = w' →
              ∃ k, requests w'
                   = requests w
                     ++ ((λ i, search_request self q
                                 (start_at + len (received jira (length (requests w)) i)))
                         <$> seq 0 k)).
    { intros out fs <-. exists 1%nat. cbn [requests]. simpl.
      unfold len. simpl. by rewrite Z.add_0_r. }
    destruct (jira (length (requests w))) as [body|e response] eqn:Hj.
    2:{ edestruct (fetch_loop_failed self jira fuel) as [out Hf]; [done..|].
        rewrite Hf in Hrun. simplify_eq. by eapply Hone. }
    destruct (decide (default [] (json_issues body) = [])) as [He|He].
    + erewrite fetch_loop_empty in Hrun by done. simplify_eq. by eapply Hone.
    + erewrite fetch_loop_page in Hrun by done.
      destruct (len (default [] (json_issues body)) <? max_results).
      * simplify_eq. by eapply Hone.
      * apply IH in Hrun as (k & ->). exists (S k).
        rewrite requests_after_page. unfold after_page. cbn [requests].
        rewrite <- (assoc_L (++)). f_equal. cbn [seq fmap list_fmap app].
        f_equal.
        { unfold received, len. simpl. by rewrite Z.add_0_r. }
        rewrite <- fmap_S_seq, <- list_fmap_compose.
        apply list_fmap_ext. intros i x _. simpl. f_equal.
        rewrite received_S, Hj. cbn [reply_issues]. unfold len.
        rewrite length_app. lia.
  - rewrite fetch_loop_stop in Hrun by done. simplify_eq.
    exists 0%nat. by rewrite app_nil_r.
Qed.

End fetch_more.

(** X4. Pagination ends once a total is known: when the first search reply
    reports a number as its total, or no total at all, [get_tasks_in_release]
    returns or exits within one iteration more than that total, and sends
    at most that many search requests, whatever the server answers
    afterwards. *)
Theorem pagination_ends_with_total (self : extractor) (jira : nat → reply)
    (fuel : nat) (t : Z) :
  first_total jira = Some t →
  (Z.to_nat t < fuel)%nat →
  ∃ r w', get_tasks_in_release self jira fuel world0 = Some (r, w')
          ∧ (length (requests w') ≤ 2 + Z.to_nat t)%nat.
Proof.
  intros Htotal Hfuel. destruct (jira 0%nat) as [body|e response] eqn:Hj.
  2:{ edestruct (get_tasks_lookup_failed self jira fuel world0) as [out ->]; [done|].
      eexists _, _. split; [done|]. simpl. lia. }
  destruct (truthy (json_name body)) eqn:Ht.
  2:{ rewrite (get_tasks_unresolved self jira _ world0 body) by done.
      eexists _, _. split; [done|]. simpl. lia. }
  rewrite (get_tasks_resolved self jira _ world0 body) by done.
  set (q := release_jql (default "" (json_name body))).
  set (w1 := after_lookup self (default "" (json_name body)) world0).
  assert (Hlen1 : length (requests w1) = 1%nat) by done.
  cut (∃ r w', fetch_loop self jira fuel q [] 0 None w1 = Some (r, w')
               ∧ (length (requests w') ≤ 2 + Z.to_nat t)%nat).
  { intros (r & w' & -> & Hlen).
    destruct r as [l| |]; simpl; eexists _, _; (split; [done|]); simpl; lia. }
  destruct fuel as [|fuel]; [lia|].
  unfold first_total in Htotal.
  destruct (jira 1%nat) as [b|e response] eqn:Hj1.
  2:{ edestruct (fetch_loop_failed self jira fuel q [] 0 None w1) as [out ->];
        [done|by rewrite Hlen1|].
      eexists _, _. split; [done|]. cbn [requests]. rewrite length_app, Hlen1. simpl. lia. }
  destruct (decide (default [] (json_issues b) = [])) as [He|He].
  - erewrite fetch_loop_empty; [|done|by rewrite Hlen1|done].
    eexists _, _. split; [done|]. cbn [requests]. rewrite length_app, Hlen1. simpl. lia.
  - erewrite fetch_loop_page; [|done|by rewrite Hlen1|done].
    destruct (len (default [] (json_issues b)) <? max_results).
    + eexists _, _. split; [done|]. rewrite requests_after_page, Hlen1. lia.
    + cbn [known_total]. rewrite Htotal.
      edestruct (fetch_loop_bounded self jira fuel q
                   ([] ++ default [] (json_issues b))
                   (0 + len (default [] (json_issues b)))
                   t
                   (after_page self q [] 0 None w1 b))
        as (r & w' & -> & Hlen); [unfold len; lia|].
      eexists _, _. split; [done|].
      rewrite requests_after_page, Hlen1 in Hlen. unfold len in Hlen. lia.
Qed.

Lemma pagination_ends_with_total_witness :
  let self := Extractor "1234" "release/v1.0" "out.sh" "https://jira" in
  let jira (n : nat) :=
    match n with
    | 0%nat => Answer (Json (Some "Sprint 42") None None)
    | _ => Answer (Json None (Some (replicate 100 (Issue "ABC-1" []))) (Some (JInt 250)))
    end in
  first_total jira = Some 250
  ∧ ∃ r w', get_tasks_in_release self jira 251 world0 = Some (r, w')
            ∧ (length (requests w') ≤ 2 + Z.to_nat 250)%nat.
Proof.
  intros self jira. split; [reflexivity|].
  apply (pagination_ends_with_total self jira 251 250); [reflexivity|].
  vm_compute. lia.
Defined.

(** X20. With totals that are all [null] and pages that are never short,
    the loop has no end: the total stays [None], so whatever number of
    iterations is allowed, [get_tasks_in_release] has not returned. *)
Theorem null_totals_never_end (self : extractor) (jira : nat → reply)
    (body : json) (fuel : nat) :
  jira 0%nat = Answer body → truthy (json_name body) = true →
  endless jira →
  get_tasks_in_release self jira fuel world0 = None.
Proof.
  intros Hj Ht Hend.
  rewrite (get_tasks_resolved self jira _ world0 body) by done.
  set (q := release_jql (default "" (json_name body))).
  cut (∀ all_issues start_at w, (1 ≤ length (requests w))%nat →
         fetch_loop self jira fuel q all_issues start_at None w = None).
  { intros Hloop. rewrite Hloop; [done|]. simpl. lia. }
  induction fuel as [|fuel IH]; intros all_issues start_at w Hw; [done|].
  destruct (Hend (length (requests w)) Hw) as (b & Hb & Hnull & Hfull).
  assert (Hne : default [] (json_issues b) ≠ []).
  { intros E. rewrite E in Hfull. done. }
  rewrite (fetch_loop_page self jira fuel q all_issues start_at None w b) by done.
  replace (len (default [] (json_issues b)) <? max_results) with false
    by (symmetry; by apply Z.ltb_ge).
  cbn [known_total]. unfold read_total. rewrite Hnull.
  apply IH. rewrite requests_after_page. lia.
Qed.

Lemma null_totals_never_end_witness :
  let self := Extractor "1234" "release/v1.0" "out.sh" "https://jira" in
  let body := Json (Some "Sprint 42") None None in
  let jira (n : nat) :=
    match n with
    | 0%nat => Answer body
    | _ => Answer (Json None (Some (replicate 100 (Issue "ABC-1" []))) (Some JNull))
    end in
  endless jira ∧ get_tasks_in_release self jira 50 world0 = None.
Proof.
  intros self body jira.
  assert (Hend : endless jira).
  { intros [|n] Hn; [lia|]. eexists. split_and!; [reflexivity|reflexivity|].
    vm_compute. discriminate. }
  split; [exact Hend|].
  apply (null_totals_never_end self jira body 50); [reflexivity|reflexivity|exact Hend].
Defined.

(** X5. Each search asks for the offset reached so far: after the lookup,
    the i-th search request carries as [startAt] the number of issues
    received in the replies to the searches before it, whether the method
    returns or exits. *)
Theorem search_offsets_accumulate (self : extractor) (jira : nat → reply)
    (fuel : nat) (body : json) (r : outcome (list issue)) (w' : world) :
  jira 0%nat = Answer body → truthy (json_name body) = true →
  get_tasks_in_release self jira fuel world0 = Some (r, w') →
  ∃ k, requests w'
       = Request (version_url self) None
         :: ((λ i, search_request self (release_jql (default "" (json_name body)))
                     (len (received jira 1 i)))
             <$> seq 0 k).
Proof.
  intros Hj Ht Hrun.
  rewrite (get_tasks_resolved self jira _ world0 body) in Hrun by done.
  apply requests_finish_fetch in Hrun as (w1 & Hrun & ->).
  apply fetch_loop_offsets in Hrun as (k & ->). exists k. done.
Qed.

Lemma search_offsets_accumulate_witness :
  let self := Extractor "1234" "release/v1.0" "out.sh" "https://jira" in
  let body := Json (Some "Sprint 42") None None in
  let jira (n : nat) :=
    match n with
    | 0%nat => Answer body
    | 1%nat => Answer (Json None (Some (replicate 100 (Issue "ABC-1" []))) (Some (JInt 150)))
    | _ => Answer (Json None (Some (replicate 50 (Issue "ABC-2" []))) (Some (JInt 150)))
    end in
  ∃ r w', get_tasks_in_release self jira 2 world0 = Some (r, w')
          ∧ ∃ k, requests w'
                 = Request (version_url self) None
                   :: ((λ i, search_request self (release_jql "Sprint 42")
                               (len (received jira 1 i)))
                       <$> seq 0 k).
Proof.
  intros self body jira.
  destruct (get_tasks_in_release self jira 2 world0) as [[r w']|] eqn:Hrun;
    [|by vm_compute in Hrun].
  exists r, w'. split; [done|].
  apply (search_offsets_accumulate self jira 2 body r w'); [reflexivity|reflexivity|done].
Defined.

(** X6. A first reply without a [total] ends pagination: the total is read
    as 0, so the first page is the whole result and exactly one search is
    sent, however many issues that page holds. *)
Theorem missing_total_single_page (self : extractor) (jira : nat → reply)
    (fuel : nat) (body b : json) :
  jira 0%nat = Answer body → truthy (json_name body) = true →
  jira 1%nat = Answer b → json_total b = None →
  ∃ w', get_tasks_in_release self jira (S fuel) world0
        = Some (Done (default [] (json_issues b)), w')
        ∧ requests w'
          = [ Request (version_url self) None;
              search_request self (release_jql (default "" (json_name body))) 0 ].
Proof.
  intros Hj Ht Hj1 Htot.
  rewrite (get_tasks_resolved self jira _ world0 body) by done.
  destruct (decide (default [] (json_issues b) = [])) as [He|He].
  - erewrite fetch_loop_empty; [|done|exact Hj1|done]. rewrite He.
    eexists. split; reflexivity.
  - erewrite fetch_loop_page; [|done|exact Hj1|done].
    destruct (len (default [] (json_issues b)) <? max_results).
    + eexists. split; reflexivity.
    + cbn [known_total]. unfold read_total. rewrite Htot. rewrite fetch_loop_stop.
      * eexists. split; reflexivity.
      * cbn [loop_continues]. apply Z.ltb_ge. unfold len. lia.
Qed.

Lemma missing_total_single_page_witness :
  let self := Extractor "1234" "release/v1.0" "out.sh" "https://jira" in
  let body := Json (Some "Sprint 42") None None in
  let b := Json None (Some (replicate 100 (Issue "ABC-1" []))) None in
  let jira (n : nat) := match n with 0%nat => Answer body | _ => Answer b end in
  ∃ w', get_tasks_in_release self jira 5 world0
        = Some (Done (replicate 100 (Issue "ABC-1" [])), w')
        ∧ length (requests w') = 2%nat.
Proof.
  intros self body b jira.
  destruct (missing_total_single_page self jira 4 body b) as (w' & Hrun & Hreq);
    [reflexivity|reflexivity|reflexivity|reflexivity|].
  exists w'. split; [exact Hrun|]. by rewrite Hreq.
Defined.

(** X7. A short first page, empty or not, is the whole result: it is
    returned as it is after exactly one search, whatever total the server
    reports. *)
Theorem short_first_page_is_result (self : extractor) (jira : nat → reply)
    (fuel : nat) (body b : json) :
  jira 0%nat = Answer body → truthy (json_name body) = true →
  jira 1%nat = Answer b →
  len (default [] (json_issues b)) < max_results →
  ∃ w', get_tasks_in_release self jira (S fuel) world0
        = Some (Done (default [] (json_issues b)), w')
        ∧ requests w'
          = [ Request (version_url self) None;
              search_request self (release_jql (default "" (json_name body))) 0 ].
Proof.
  intros Hj Ht Hj1 Hshort.
  rewrite (get_tasks_resolved self jira _ world0 body) by done.
  destruct (decide (default [] (json_issues b) = [])) as [He|He].
  - erewrite fetch_loop_empty; [|done|exact Hj1|done]. rewrite He.
    eexists. split; reflexivity.
  - erewrite fetch_loop_page; [|done|exact Hj1|done].
    apply Z.ltb_lt in Hshort. rewrite Hshort. eexists. split; reflexivity.
Qed.

Lemma short_first_page_is_result_witness :
  let self := Extractor "1234" "release/v1.0" "out.sh" "https://jira" in
  let body := Json (Some "Sprint 42") None None in
  let b := Json None None (Some (JInt 1000)) in
  let jira (n : nat) := match n with 0%nat => Answer body | _ => Answer b end in
  ∃ w', get_tasks_in_release self jira 1 world0 = Some (Done [], w')
        ∧ length (requests w') = 2%nat.
Proof.
  intros self body b jira.
  destruct (short_first_page_is_result self jira 0 body b) as (w' & Hrun & Hreq);
    [reflexivity|reflexivity|reflexivity|reflexivity|].
  exists w'. split; [exact Hrun|]. by rewrite Hreq.
Defined.

(** ** The commit scan *)

Section scan_more.
Variable fromtimestamp : Z → Z.
Variable re_other : string → string → option bool.

Implicit Types (st : list association * gset string) (c : commit).

Lemma first_match_none keys m :
  Forall (λ k, key_found re_other k m = Some false) keys → first_match re_other keys m = None.
Proof. induction 1 as [|k keys Hk _ IH]; simpl; [done|]. by rewrite Hk. Qed.

Lemma first_match_first keys m k :
  first_matching re_other keys m k → first_match re_other keys m = Some k.
Proof.
  intros (pre & post & -> & Hk & Hpre).
  induction pre as [|k' pre IH]; simpl.
  - by rewrite Hk.
  - rewrite (Hpre k') by left. apply IH. intros k'' Hin. apply Hpre. by right.
Qed.

(** A commit whose hash was not used yet adds its association, if it has
    one, and no other hash. *)
Lemma scan_keys_fresh c keys st st' :
  hexsha c ∉ st.2 → scan_keys fromtimestamp re_other c keys st = Some st' →
  st'.1 = st.1 ++ option_list (association_for fromtimestamp re_other keys c)
  ∧ ∀ h, h ∈ st'.2 → h ∈ st.2 ∨ h = hexsha c.
Proof.
  intros Hnin Hrun. unfold association_for.
  destruct (scan_keys_spec _ _ _ _ _ _ Hrun)
    as [[Hno ->]|(k & Hfirst & [[Hin ->]|[_ ->]])].
  - rewrite (first_match_none _ _ Hno). simpl. rewrite app_nil_r. auto.
  - done.
  - rewrite (first_match_first _ _ _ Hfirst). simpl. split; [done|].
    intros h [?| ->%elem_of_singleton]%elem_of_union; auto.
Qed.

Lemma scan_commits_fresh cs keys st st' :
  NoDup (hexsha <$> cs) → (∀ c, c ∈ cs → hexsha c ∉ st.2) →
  scan_commits fromtimestamp re_other cs keys st = Some st' →
  st'.1 = st.1 ++ omap (association_for fromtimestamp re_other keys) cs.
Proof.
  revert st. induction cs as [|c cs IH]; intros st Hnd Hfresh; simpl.
  - intros [= <-]. by rewrite app_nil_r.
  - destruct (scan_keys fromtimestamp re_other c keys st) as [st1|] eqn:Hk; [|done].
    intros Hrun. rewrite fmap_cons in Hnd. apply NoDup_cons in Hnd as [Hc Hnd].
    destruct (scan_keys_fresh c keys st st1) as [H1 H2]; [apply Hfresh; by left|done|].
    apply IH in Hrun; [|done|].
    + rewrite Hrun, H1, <- (assoc_L (++)). f_equal.
      by destruct (association_for fromtimestamp re_other keys c).
    + intros c' Hc' Hin. destruct (H2 _ Hin) as [Hold|Heq].
      * eapply Hfresh; [by right|done].
      * apply Hc. rewrite <- Heq. apply list_elem_of_fmap. eauto.
Qed.

Lemma scan_keys_sub c keys st st' :
  scan_keys fromtimestamp re_other c keys st = Some st' →
  ∃ l, st'.1 = st.1 ++ l ∧ sublist (commit_hash <$> l) [hexsha c].
Proof.
  intros Hrun.
  destruct (scan_keys_spec _ _ _ _ _ _ Hrun)
    as [[Hno ->]|(k & Hfirst & [[Hin ->]|[_ ->]])].
  - exists []. rewrite app_nil_r. split; [done|]. apply sublist_nil_l.
  - exists []. rewrite app_nil_r. split; [done|]. apply sublist_nil_l.
  - eexists. split; [done|]. done.
Qed.

Lemma scan_commits_sub cs keys st st' :
  scan_commits fromtimestamp re_other cs keys st = Some st' →
  ∃ l, st'.1 = st.1 ++ l ∧ sublist (commit_hash <$> l) (hexsha <$> cs).
Proof.
  revert st. induction cs as [|c cs IH]; intros st; simpl.
  - intros [= <-]. exists []. by rewrite app_nil_r.
  - destruct (scan_keys fromtimestamp re_other c keys st) as [st1|] eqn:Hk; [|done].
    intros Hrun. apply scan_keys_sub in Hk as (l1 & H1 & S1).
    apply IH in Hrun as (l2 & H2 & S2).
    exists (l1 ++ l2). rewrite H2, H1, <- (assoc_L (++)). split; [done|].
    rewrite fmap_app. by apply (sublist_app _ [hexsha c]).
Qed.

End scan_more.

Lemma get_commit_ids_done (repo : list commit) (fromtimestamp : Z → Z)
    (re_other : string → string → option bool) (issues : list issue) (w w' : world) (out : list association) :
  get_commit_ids_for_tickets repo fromtimestamp re_other issues w = Some (Done out, w') →
  ∃ seen, scan_commits fromtimestamp re_other repo (key <$> issues) ([], ∅) = Some (out, seen).
Proof.
  unfold get_commit_ids_for_tickets, associate.
  destruct (scan_commits fromtimestamp re_other repo (key <$> issues) ([], ∅))
    as [[l seen]|]; simpl; [|done].
  intros Hrun. unfold bind, print, ret in Hrun. simplify_eq. by eexists.
Qed.

(** X8. In a history without repeated hashes the result of
    [get_commit_ids_for_tickets] is exactly this: the commits whose message
    is matched by some ticket key, in the order of the history, each with
    the first key that matches it, its date converted and its message
    stripped. *)
Theorem associations_follow_history (repo : list commit) (fromtimestamp : Z → Z)
    (re_other : string → string → option bool) (issues : list issue) (w w' : world) (out : list association) :
  NoDup (hexsha <$> repo) →
  get_commit_ids_for_tickets repo fromtimestamp re_other issues w = Some (Done out, w') →
  out = omap (association_for fromtimestamp re_other (key <$> issues)) repo.
Proof.
  intros Hnd Hrun. apply get_commit_ids_done in Hrun as [seen Hscan].
  apply scan_commits_fresh in Hscan; [done|done|].
  intros c _. simpl. apply not_elem_of_empty.
Qed.

Lemma associations_follow_history_witness :
  let repo := [ Commit "c1" "ABC-1 fix" 100; Commit "c2" "unrelated" 50;
                Commit "c3" "ABC-2 and ABC-1 combined" 200 ] in
  let issues := [ Issue "ABC-1" []; Issue "ABC-2" [] ] in
  let out := [ Association "ABC-1" "c1" 100 "ABC-1 fix";
               Association "ABC-1" "c3" 200 "ABC-2 and ABC-1 combined" ] in
  NoDup (hexsha <$> repo)
  ∧ out = omap (association_for (λ t, t) no_other (key <$> issues)) repo.
Proof.
  intros repo issues out.
  assert (Hnd : NoDup (hexsha <$> repo)).
  { compute_done. }
  split; [exact Hnd|].
  eapply (associations_follow_history repo (λ t, t) no_other issues world0);
    [exact Hnd|].
  lazy. reflexivity.
Defined.

(** X9. Whatever the history, the hashes of the associations returned form
    a subsequence of the hashes of the history: associations come in
    history order and are never more than the commits. *)
Theorem associations_subsequence (repo : list commit) (fromtimestamp : Z → Z)
    (re_other : string → string → option bool) (issues : list issue) (w w' : world) (out : list association) :
  get_commit_ids_for_tickets repo fromtimestamp re_other issues w = Some (Done out, w') →
  sublist (commit_hash <$> out) (hexsha <$> repo)
  ∧ (length out ≤ length repo)%nat.
Proof.
  intros Hrun. apply get_commit_ids_done in Hrun as [seen Hscan].
  apply scan_commits_sub in Hscan as (l & Hl & Hsub). simpl in Hl. subst l.
  split; [done|]. apply sublist_length in Hsub. by rewrite !length_fmap in Hsub.
Qed.

Lemma associations_subsequence_witness :
  let repo := [ Commit "c1" "ABC-1 fix" 100; Commit "c1" "ABC-2 again" 50 ] in
  let issues := [ Issue "ABC-1" []; Issue "ABC-2" [] ] in
  let out := [ Association "ABC-1" "c1" 100 "ABC-1 fix" ] in
  sublist (commit_hash <$> out) (hexsha <$> repo)
  ∧ (length out ≤ length repo)%nat.
Proof.
  intros repo issues out.
  eapply (associations_subsequence repo (λ t, t) no_other issues world0).
  lazy. reflexivity.
Defined.

(** ** The chronological order *)

Lemma sorted_fixed {A : Type} (sort_key : A → Z) (l : list A) :
  StronglySorted (λ a b, sort_key a ≤ sort_key b) l → sorted sort_key l = l.
Proof.
  induction 1 as [|x l Hl IH Hx]; simpl; [done|]. rewrite IH.
  destruct l as [|y l]; [done|]. simpl.
  apply Forall_cons in Hx as [Hxy _]. apply Z.leb_le in Hxy. by rewrite Hxy.
Qed.

(** X10. A list that is already in chronological order is returned
    unchanged by [order_commits_chronologically]. *)
Theorem ordered_commits_unchanged (commits : list association) :
  StronglySorted (λ a b, commit_date a ≤ commit_date b) commits →
  order_commits_chronologically commits = commits.
Proof. apply sorted_fixed. Qed.

Lemma ordered_commits_unchanged_witness :
  let commits := [ Association "ABC-1" "c1" 100 "first";
                   Association "ABC-2" "c2" 100 "second";
                   Association "ABC-1" "c3" 200 "third" ] in
  order_commits_chronologically commits = commits.
Proof.
  intros commits. apply (ordered_commits_unchanged commits).
  repeat constructor; simpl; lia.
Defined.

(** ** The script *)

Lemma is_pick_pick_line a : is_pick (pick_line a) = true.
Proof. reflexivity. Qed.

Ltac drop_line :=
  rewrite filter_cons_False
    by (let H := fresh in intros H; vm_compute in H; discriminate H).

Lemma filter_picks_entries (ordered : list association) :
  filter (λ s, is_pick s = true) (flat_map script_entry ordered)
  = pick_line <$> ordered.
Proof.
  induction ordered as [|a l IH]; [done|].
  cbn [flat_map script_entry app]. drop_line.
  rewrite filter_cons_True by reflexivity. drop_line. by rewrite IH.
Qed.

Lemma filter_picks_content (self : extractor) (now : string)
    (ordered : list association) :
  filter (λ s, is_pick s = true) (script_content self now ordered)
  = pick_line <$> ordered.
Proof.
  rewrite script_content_lines. rewrite !filter_app, filter_picks_entries.
  repeat drop_line. rewrite !filter_nil. by rewrite app_nil_r.
Qed.

(** X11. When the release identifier, the date, the branch, the ticket
    keys and the hashes hold no line feed, the lines of the written script
    that start a cherry-pick are exactly the replay commands of the
    associations, one for each, in their order. *)
Theorem script_picks (self : extractor) (now : string) (disk : file_system)
    (ordered_commits : list association) (w w' : world) (p : string) :
  single_lines self now ordered_commits →
  generate_cherry_pick_script self now disk ordered_commits w = Some (Done p, w') →
  ∃ content,
    file_ops w' = file_ops w ++ [WriteFile p content; Chmod p 493]
    ∧ filter (λ s, is_pick s = true) (split_lines content)
      = pick_line <$> ordered_commits.
Proof.
  intros (Hid & Hnow & Hbr & Hall) Hrun.
  apply generate_done in Hrun as [-> Hf].
  eexists. split; [exact Hf|].
  rewrite script_text_lines by done. apply filter_picks_content.
Qed.

Lemma script_picks_witness :
  let self := Extractor "1234" "release/v1.0" "out.sh" "https://jira" in
  let ordered := [ Association "ABC-1" "c1" 100 "ABC-1 fix";
                   Association "ABC-2" "c3" 200 "git cherry-pick ABC-2" ] in
  ∃ w' content,
    generate_cherry_pick_script self "2024-01-01 00:00:00" sound_disk ordered world0
    = Some (Done "out.sh", w')
    ∧ file_ops w' = [WriteFile "out.sh" content; Chmod "out.sh" 493]
    ∧ filter (λ s, is_pick s = true) (split_lines content) = pick_line <$> ordered.
Proof.
  intros self ordered.
  destruct (generate_cherry_pick_script self "2024-01-01 00:00:00" sound_disk
              ordered world0) as [[[p| |] w']|] eqn:Hrun;
    try (by vm_compute in Hrun).
  assert (p = "out.sh") as -> by (vm_compute in Hrun; congruence).
  destruct (script_picks self "2024-01-01 00:00:00" sound_disk ordered
              world0 w' "out.sh") as (content & Hf & Hpicks);
    [|exact Hrun|].
  { split_and!; [reflexivity|reflexivity|reflexivity|].
    repeat constructor. }
  exists w', content. done.
Defined.

(** ** The run as a whole *)

Section run_facts.
Variable self : extractor.
Variable jira : nat → reply.

Lemma fetch_loop_file_ops fuel q all_issues start_at total w r w' :
  fetch_loop self jira fuel q all_issues start_at total w = Some (r, w') →
  file_ops w' = file_ops w ∧ ∀ e, r ≠ Raised e.
Proof.
  revert all_issues start_at total w.
  induction fuel as [|fuel IH]; intros all_issues start_at total w Hrun;
    destruct (loop_continues start_at total) eqn:Hc.
  - simpl in Hrun. by rewrite Hc in Hrun.
  - rewrite fetch_loop_stop in Hrun by done. by simplify_eq.
  - destruct (jira (length (requests w))) as [body|e response] eqn:Hj.
    2:{ edestruct (fetch_loop_failed self jira fuel) as [out Hf]; [done..|].
        rewrite Hf in Hrun. by simplify_eq. }
    destruct (decide (default [] (json_issues body) = [])) as [He|He].
    + erewrite fetch_loop_empty in Hrun by done. by simplify_eq.
    + erewrite fetch_loop_page in Hrun by done.
      destruct (len (default [] (json_issues body)) <? max_results).
      * by simplify_eq.
      * by apply IH in Hrun.
  - rewrite fetch_loop_stop in Hrun by done. by simplify_eq.
Qed.

Lemma get_tasks_file_ops fuel w r w' :
  get_tasks_in_release self jira fuel w = Some (r, w') →
  file_ops w' = file_ops w ∧ ∀ e, r ≠ Raised e.
Proof.
  intros Hrun. destruct (jira (length (requests w))) as [body|e response] eqn:Hj.
  - destruct (truthy (json_name body)) eqn:Ht.
    + rewrite (get_tasks_resolved self jira _ w body) in Hrun by done.
      destruct (fetch_loop _ _ _ _ _ _ _ _) as [[r1 w1]|] eqn:Hloop; [|done].
      apply fetch_loop_file_ops in Hloop as [Hf Hr].
      destruct r1; simpl in Hrun; simplify_eq; [done|done|].
      by destruct (Hr exception).
    + rewrite (get_tasks_unresolved self jira _ w body) in Hrun by done.
      by simplify_eq.
  - edestruct (get_tasks_lookup_failed self jira fuel w) as [out Hf]; [done|].
    rewrite Hf in Hrun. by simplify_eq.
Qed.

(** A run completes, having fetched issues, associated commits and written
    the script of the ordered associations; or it exits, or raises before
    the script is generated, with the file operations it started with; or
    the write or the [chmod] raises, and at most the write was done. *)
Lemma run_cases repo fromtimestamp now re_other disk fuel w r w' :
  run self jira repo fromtimestamp now re_other disk fuel w = Some (r, w') →
  (r = Done (output_file self)
   ∧ ∃ issues w1 out,
       get_tasks_in_release self jira fuel (started self w) = Some (Done issues, w1)
       ∧ associate repo fromtimestamp re_other issues = Some out
       ∧ file_ops w'
         = file_ops w
           ++ script_written self now (order_commits_chronologically out))
  ∨ ((∃ n, r = SysExit n) ∧ file_ops w' = file_ops w)
  ∨ ((∃ e, r = Raised e)
     ∧ (file_ops w' = file_ops w
        ∨ ∃ partial,
            file_ops w' = file_ops w ++ [WriteFile (output_file self) partial])).
Proof.
  unfold run. unfold bind at 1. unfold print at 1. fold (started self w).
  unfold bind at 1.
  destruct (get_tasks_in_release self jira fuel (started self w))
    as [[r1 w1]|] eqn:Hfetch; [|done].
  pose proof (get_tasks_file_ops _ _ _ _ Hfetch) as [Hf1 Hr1]. simpl in Hf1.
  destruct r1 as [issues|n|e].
  2:{ intros; simplify_eq. right; left. split; [by eexists|done]. }
  2:{ by destruct (Hr1 e). }
  unfold bind at 1. unfold get_commit_ids_for_tickets.
  destruct (associate repo fromtimestamp re_other issues) as [out|] eqn:Hassoc.
  2:{ unfold raise. intros; simplify_eq. right; right. split; [by eexists|by left]. }
  unfold bind at 2. unfold print at 1, ret at 1. cbn [requests stdout file_ops].
  unfold bind at 1.
  set (w2 := World _ _ _).
  destruct (generate_cases self now disk (order_commits_chronologically out) w2)
    as (r2 & w3 & Hg & _ & Hcases).
  rewrite Hg. subst w2. cbn [file_ops] in Hcases. rewrite Hf1 in Hcases.
  destruct Hcases as [[-> Hf]|[[e ->] Hf]].
  - unfold bind, print, ret. intros; simplify_eq. left. split; [done|].
    exists issues, w1, out. by split_and!.
  - intros; simplify_eq. right; right. split; [by eexists|done].
Qed.

End run_facts.

(** X12. What a run leaves on the file system: a run that completes has
    written exactly one file, at [output_file], and made it executable; a
    run ended by [sys.exit] has touched no file; a run ended by an
    exception has touched no file or, when the write or the [chmod] itself
    failed, has only written to [output_file]. *)
Theorem run_writes_script_or_nothing (self : extractor) (jira : nat → reply)
    (repo : list commit) (fromtimestamp : Z → Z) (now : string)
    (re_other : string → string → option bool) (disk : file_system)
    (fuel : nat) (r : outcome string) (w : world) :
  run self jira repo fromtimestamp now re_other disk fuel world0 = Some (r, w) →
  match r with
  | Done script_path =>
      script_path = output_file self
      ∧ ∃ content, file_ops w = [ WriteFile (output_file self) content;
                                  Chmod (output_file self) 493 ]
  | SysExit _ => file_ops w = []
  | Raised _ =>
      file_ops w = []
      ∨ ∃ partial, file_ops w = [ WriteFile (output_file self) partial ]
  end.
Proof.
  intros Hrun.
  apply run_cases in Hrun
    as [[-> (issues & w1 & out & _ & _ & Hf)]|[[[n ->] Hf]|[[e ->] Hf]]].
  - split; [done|]. eexists. exact Hf.
  - done.
  - done.
Qed.

Lemma run_writes_script_or_nothing_witness :
  let self := Extractor "1234" "release/v1.0" "out.sh" "https://jira" in
  let jira (n : nat) :=
    match n with
    | 0%nat => Answer (Json (Some "Sprint 42") None None)
    | _ => Answer (Json None (Some [Issue "ABC-1" []]) (Some (JInt 1)))
    end in
  let disk := FileSystem (λ _ _, Written) (λ _ _, Some "Operation not permitted") in
  ∃ w e, run self jira [] (λ t, t) "2024-01-01 00:00:00" no_other disk 1 world0
         = Some (Raised e, w)
         ∧ (file_ops w = []
            ∨ ∃ partial, file_ops w = [ WriteFile "out.sh" partial ]).
Proof.
  intros self jira disk. eexists _, _. split; [lazy; reflexivity|].
  apply (run_writes_script_or_nothing self jira [] (λ t, t) "2024-01-01 00:00:00"
           no_other disk 1 (Raised "Operation not permitted")).
  lazy. reflexivity.
Defined.

(** X13. What a completed run has written: the script of a list of
    associations that ascends by date, holds no commit hash twice, pairs
    commits of the history with the first fetched ticket key that matches
    their message, and covers every commit matched by a fetched key. *)
Theorem completed_run_script (self : extractor) (jira : nat → reply)
    (repo : list commit) (fromtimestamp : Z → Z) (now : string)
    (re_other : string → string → option bool) (disk : file_system)
    (fuel : nat) (script_path : string) (w : world) :
  run self jira repo fromtimestamp now re_other disk fuel world0
  = Some (Done script_path, w) →
  ∃ (issues : list issue) (w1 : world) (ordered : list association),
    get_tasks_in_release self jira fuel (started self world0) = Some (Done issues, w1)
    ∧ file_ops w = script_written self now ordered
    ∧ StronglySorted (λ a b, commit_date a ≤ commit_date b) ordered
    ∧ NoDup (commit_hash <$> ordered)
    ∧ (∀ a, a ∈ ordered →
         ∃ c, c ∈ repo
              ∧ first_matching re_other (key <$> issues) (message c) (ticket_key a)
              ∧ a = association_of fromtimestamp (ticket_key a) c)
    ∧ (∀ c k, c ∈ repo → k ∈ key <$> issues →
              key_found re_other k (message c) = Some true →
              ∃ a, a ∈ ordered ∧ commit_hash a = hexsha c).
Proof.
  intros Hrun.
  apply run_cases in Hrun
    as [[_ (issues & w1 & out & Hfetch & Hassoc & Hf)]|[[[n ?] _]|[[e ?] _]]];
    [|done..].
  exists issues, w1, (order_commits_chronologically out).
  unfold associate in Hassoc.
  destruct (scan_commits fromtimestamp re_other repo (key <$> issues) ([], ∅))
    as [[l seen]|] eqn:Hscan; simplify_eq/=.
  destruct (scan_commits_inv fromtimestamp re_other (key <$> issues) repo repo
              ([], ∅) (out, seen))
    as ((Hset & Hnd & Hall) & _ & Hcov);
    [done|apply scan_inv_empty|done|].
  simpl in *. unfold order_commits_chronologically.
  split_and!; [done|done|apply sorted_ascending| | |].
  - by rewrite (sorted_perm commit_date out).
  - intros a Ha. rewrite (sorted_perm commit_date out) in Ha. by apply Hall.
  - intros c k Hc Hk Hm. specialize (Hcov c k Hc Hk Hm).
    apply Hset, list_elem_of_fmap in Hcov as (a & Ha & Hin).
    exists a. split; [|done]. by rewrite (sorted_perm commit_date out).
Qed.

Lemma completed_run_script_witness :
  let self := Extractor "1234" "release/v1.0" "out.sh" "https://jira" in
  let jira (n : nat) :=
    match n with
    | 0%nat => Answer (Json (Some "Sprint 42") None None)
    | _ => Answer (Json None (Some [Issue "ABC-1" []; Issue "ABC-2" []]) (Some (JInt 2)))
    end in
  let repo := [ Commit "c1" "ABC-1 fix" 100; Commit "c2" "unrelated" 50;
                Commit "c3" "ABC-2 and ABC-1 combined" 200 ] in
  ∃ w ordered,
    run self jira repo (λ t, t) "2024-01-01 00:00:00" no_other sound_disk 1 world0
    = Some (Done "out.sh", w)
    ∧ file_ops w = script_written self "2024-01-01 00:00:00" ordered
    ∧ NoDup (commit_hash <$> ordered).
Proof.
  intros self jira repo.
  destruct (run self jira repo (λ t, t) "2024-01-01 00:00:00" no_other sound_disk
              1 world0)
    as [[[p| |] w]|] eqn:Hrun; try (by vm_compute in Hrun).
  assert (p = "out.sh") as -> by (vm_compute in Hrun; congruence).
  destruct (completed_run_script self jira repo (λ t, t) "2024-01-01 00:00:00"
              no_other sound_disk 1 "out.sh" w Hrun)
    as (issues & w1 & ordered & _ & Hf & _ & Hnd & _).
  exists w, ordered. done.
Defined.

(** X14. The text written by [generate_cherry_pick_script] reads back as
    the lines of the script: when the release identifier, the date, the
    branch, the ticket keys and the hashes hold no line feed, splitting the
    file at line feeds gives [script_content] again. *)
Theorem written_script_reads_back (self : extractor) (now : string)
    (disk : file_system) (ordered_commits : list association) (w w' : world)
    (p : string) :
  no_newline (release_id self) = true → no_newline now = true →
  no_newline (target_branch self) = true →
  Forall (λ a, no_newline (ticket_key a) = true
               ∧ no_newline (commit_hash a) = true) ordered_commits →
  generate_cherry_pick_script self now disk ordered_commits w = Some (Done p, w') →
  ∃ content,
    file_ops w' = file_ops w ++ [WriteFile p content; Chmod p 493]
    ∧ split_lines content = script_content self now ordered_commits.
Proof.
  intros Hid Hnow Hbr Hall Hrun.
  apply generate_done in Hrun as [-> Hf].
  eexists. split; [exact Hf|]. by apply script_text_lines.
Qed.

Lemma written_script_reads_back_witness :
  let self := Extractor "1234" "release/v1.0" "out.sh" "https://jira" in
  let ordered := [ Association "ABC-1" "c1" 100 "ABC-1 fix" ] in
  ∃ w' content,
    generate_cherry_pick_script self "2024-01-01 00:00:00" sound_disk ordered world0
    = Some (Done "out.sh", w')
    ∧ file_ops w' = [WriteFile "out.sh" content; Chmod "out.sh" 493]
    ∧ split_lines content = script_content self "2024-01-01 00:00:00" ordered.
Proof.
  intros self ordered.
  destruct (generate_cherry_pick_script self "2024-01-01 00:00:00" sound_disk
              ordered world0)
    as [[[p| |] w']|] eqn:Hrun; try (by vm_compute in Hrun).
  assert (p = "out.sh") as -> by (vm_compute in Hrun; congruence).
  destruct (written_script_reads_back self "2024-01-01 00:00:00" sound_disk ordered
              world0 w' "out.sh") as (content & Hf & Hl);
    [reflexivity|reflexivity|reflexivity| |exact Hrun|].
  { repeat constructor. }
  exists w', content. done.
Defined.

(** ** Start-up *)

(** X15. Without credentials nothing is attempted: when [JIRA_USERNAME] or
    [JIRA_API_TOKEN] is unset or empty, [main] prints the error and exits
    with status 1, having sent no request and touched no file. *)
Theorem missing_credentials_abort (env : environment) (args : arguments)
    (jira : nat → reply) (repo : list commit) (fromtimestamp : Z → Z)
    (now : string) (re_other : string → string → option bool)
    (disk : file_system) (fuel : nat) :
  truthy (env_JIRA_USERNAME env) = false ∨ truthy (env_JIRA_API_TOKEN env) = false →
  main env args jira repo fromtimestamp now re_other disk fuel world0
  = Some (SysExit 1,
          World []
            ["Error: JIRA_USERNAME and JIRA_API_TOKEN environment variables must be set."]
            []).
Proof.
  intros Hcred. unfold main, init.
  replace (negb (truthy (env_JIRA_USERNAME env))
           || negb (truthy (env_JIRA_API_TOKEN env))) with true.
  - reflexivity.
  - destruct Hcred as [-> | ->]; [done|]. by rewrite orb_true_r.
Qed.

Lemma missing_credentials_abort_witness :
  let env := Environment None (Some "bot") (Some "") None in
  main env (Args "1234" "release/v1.0" None) (λ _, RequestException "unused" None)
    [] (λ t, t) "2024-01-01 00:00:00" no_other sound_disk 0 world0
  = Some (SysExit 1,
          World []
            ["Error: JIRA_USERNAME and JIRA_API_TOKEN environment variables must be set."]
            []).
Proof.
  intros env.
  apply (missing_credentials_abort env). right. reflexivity.
Defined.

(** X16. With credentials but a working directory that is no repository,
    [main] prints the error of the repository and exits with status 1,
    again before any request or file operation. *)
Theorem repository_error_abort (env : environment) (args : arguments)
    (jira : nat → reply) (repo : list commit) (fromtimestamp : Z → Z)
    (now : string) (re_other : string → string → option bool)
    (disk : file_system) (fuel : nat) (e : string) :
  truthy (env_JIRA_USERNAME env) = true → truthy (env_JIRA_API_TOKEN env) = true →
  repo_error env = Some e →
  main env args jira repo fromtimestamp now re_other disk fuel world0
  = Some (SysExit 1, World [] ["Error initializing Git repository: " +:+ e] []).
Proof.
  intros Hu Ht He. unfold main, init. rewrite Hu, Ht, He. reflexivity.
Qed.

Lemma repository_error_abort_witness :
  let env := Environment None (Some "bot") (Some "secret") (Some "not a git repository") in
  main env (Args "1234" "release/v1.0" None) (λ _, RequestException "unused" None)
    [] (λ t, t) "2024-01-01 00:00:00" no_other sound_disk 0 world0
  = Some (SysExit 1,
          World [] ["Error initializing Git repository: not a git repository"] []).
Proof.
  intros env.
  apply (repository_error_abort env _ _ _ _ _ _ _ _ "not a git repository");
    reflexivity.
Defined.

(** X17. A completed [main] had credentials and a repository, and wrote
    its script to the path given on the command line, or to
    [cherry_pick_release_<id>.sh] when none (or an empty one) was given. *)
Theorem completed_main (env : environment) (args : arguments)
    (jira : nat → reply) (repo : list commit) (fromtimestamp : Z → Z)
    (now : string) (re_other : string → string → option bool)
    (disk : file_system) (fuel : nat) (w : world) :
  main env args jira repo fromtimestamp now re_other disk fuel world0
  = Some (Done tt, w) →
  truthy (env_JIRA_USERNAME env) = true
  ∧ truthy (env_JIRA_API_TOKEN env) = true
  ∧ repo_error env = None
  ∧ ∃ content,
      file_ops w
      = [ WriteFile (default_output_file (arg_release_id args) (arg_output args)) content;
          Chmod (default_output_file (arg_release_id args) (arg_output args)) 493 ].
Proof.
  unfold main. unfold bind at 1. unfold init.
  destruct (truthy (env_JIRA_USERNAME env)); [|done].
  destruct (truthy (env_JIRA_API_TOKEN env)); [|done].
  destruct (repo_error env); [done|]. cbn [negb orb ret].
  unfold bind at 1.
  destruct (run _ jira repo fromtimestamp now re_other disk fuel world0)
    as [[r w1]|] eqn:Hrun; [|done].
  apply run_cases in Hrun
    as [[-> (issues & w1' & out & _ & _ & Hf)]|[[[n ->] _]|[[e ->] _]]];
    [|done..].
  intros Hmain. unfold ret in Hmain. simplify_eq.
  split_and!; [done..|]. eexists. exact Hf.
Qed.

Lemma completed_main_witness :
  let env := Environment (Some "https://jira") (Some "bot") (Some "secret") None in
  let jira (n : nat) :=
    match n with
    | 0%nat => Answer (Json (Some "Sprint 42") None None)
    | _ => Answer (Json None (Some [Issue "ABC-1" []]) (Some (JInt 1)))
    end in
  let repo := [ Commit "c1" "ABC-1 fix" 100 ] in
  ∃ w content,
    main env (Args "1234" "release/v1.0" None) jira repo (λ t, t)
      "2024-01-01 00:00:00" no_other sound_disk 1 world0 = Some (Done tt, w)
    ∧ file_ops w = [ WriteFile "cherry_pick_release_1234.sh" content;
                     Chmod "cherry_pick_release_1234.sh" 493 ].
Proof.
  intros env jira repo.
  destruct (main env (Args "1234" "release/v1.0" None) jira repo (λ t, t)
              "2024-01-01 00:00:00" no_other sound_disk 1 world0)
    as [[[[]| |] w]|] eqn:Hmain;
    try (by vm_compute in Hmain).
  destruct (completed_main env (Args "1234" "release/v1.0" None) jira repo (λ t, t)
              "2024-01-01 00:00:00" no_other sound_disk 1 w Hmain)
    as (_ & _ & _ & content & Hf).
  exists w, content. split; [done|exact Hf].
Defined.

(** ** Only the first known total counts *)

Section total_ignored.
Variable self : extractor.
Variables jira jira' : nat → reply.

Lemma fetch_loop_total_ignored fuel q all_issues start_at t w :
  (∀ n, (length (requests w) ≤ n)%nat → same_but_total (jira n) (jira' n)) →
  fetch_loop self jira fuel q all_issues start_at (Some t) w
  = fetch_loop self jira' fuel q all_issues start_at (Some t) w.
Proof.
  revert all_issues start_at w.
  induction fuel as [|fuel IH]; intros all_issues start_at w Hsame;
    destruct (loop_continues start_at (Some t)) eqn:Hc.
  - simpl. simpl in Hc. by rewrite Hc.
  - by rewrite !fetch_loop_stop.
  - pose proof (Hsame (length (requests w)) (le_n _)) as Hn.
    destruct (jira (length (requests w))) as [b|e x] eqn:Hj;
      destruct (jira' (length (requests w))) as [b'|e' x'] eqn:Hj';
      simpl in Hn; try done.
    + destruct (decide (default [] (json_issues b) = [])) as [He|He].
      * rewrite (fetch_loop_empty self jira fuel q all_issues start_at _ w b)
          by done.
        rewrite (fetch_loop_empty self jira' fuel q all_issues start_at _ w b')
          by (done || by rewrite <- Hn).
        done.
      * rewrite (fetch_loop_page self jira fuel q all_issues start_at _ w b)
          by done.
        rewrite (fetch_loop_page self jira' fuel q all_issues start_at _ w b')
          by (done || by rewrite <- Hn).
        unfold after_page. cbn [known_total]. rewrite <- Hn.
        destruct (len (default [] (json_issues b)) <? max_results); [done|].
        apply IH. intros n Hle. apply Hsame. cbn [requests] in Hle.
        rewrite length_app in Hle. simpl in Hle. lia.
    + destruct Hn as [<- <-]. cbn [fetch_loop]. rewrite Hc.
      unfold bind, make_jira_request. by rewrite Hj, Hj'.
  - by rewrite !fetch_loop_stop.
Qed.

End total_ignored.

(** X18. Once the first page has given a total, later totals do not
    count: two servers that give the same replies to the lookup and to the
    first search, this one not carrying a [null] total, and afterwards
    replies with the same issues (or the same failure) but any totals, make
    [get_tasks_in_release] behave in exactly the same way. *)
Theorem later_totals_ignored (self : extractor) (jira jira' : nat → reply)
    (fuel : nat) (t : Z) :
  jira 0%nat = jira' 0%nat → jira 1%nat = jira' 1%nat →
  first_total jira = Some t →
  (∀ n, (2 ≤ n)%nat → same_but_total (jira n) (jira' n)) →
  get_tasks_in_release self jira fuel world0
  = get_tasks_in_release self jira' fuel world0.
Proof.
  intros H0 H1 Htotal Hsame. unfold first_total in Htotal.
  destruct (jira 0%nat) as [body|e x] eqn:Hj.
  2:{ symmetry in H0. unfold get_tasks_in_release, get_release_info.
      unfold bind, make_jira_request.
      change (length (requests world0)) with 0%nat. by rewrite Hj, H0. }
  destruct (truthy (json_name body)) eqn:Ht.
  2:{ rewrite (get_tasks_unresolved self jira _ world0 body) by done.
      by rewrite (get_tasks_unresolved self jira' _ world0 body) by done. }
  rewrite (get_tasks_resolved self jira _ world0 body) by done.
  rewrite (get_tasks_resolved self jira' _ world0 body) by done.
  f_equal. set (q := release_jql (default "" (json_name body))).
  set (w1 := after_lookup self (default "" (json_name body)) world0).
  destruct fuel as [|fuel]; [done|].
  destruct (jira 1%nat) as [b|e x] eqn:Hj1.
  2:{ symmetry in H1. cbn [fetch_loop loop_continues].
      unfold bind, make_jira_request.
      change (length (requests w1)) with 1%nat. by rewrite Hj1, H1. }
  destruct (decide (default [] (json_issues b) = [])) as [He|He].
  - rewrite (fetch_loop_empty self jira fuel q [] 0 None w1 b) by done.
    by rewrite (fetch_loop_empty self jira' fuel q [] 0 None w1 b) by done.
  - rewrite (fetch_loop_page self jira fuel q [] 0 None w1 b) by done.
    rewrite (fetch_loop_page self jira' fuel q [] 0 None w1 b) by done.
    destruct (len (default [] (json_issues b)) <? max_results); [done|].
    cbn [known_total]. rewrite Htotal.
    apply fetch_loop_total_ignored. intros n Hle. apply Hsame.
    rewrite requests_after_page in Hle. simpl in Hle. lia.
Qed.

Lemma later_totals_ignored_witness :
  let self := Extractor "1234" "release/v1.0" "out.sh" "https://jira" in
  let page (n : nat) := replicate n (Issue "ABC-1" []) in
  let jira (total : Z) (n : nat) :=
    match n with
    | 0%nat => Answer (Json (Some "Sprint 42") None None)
    | 1%nat => Answer (Json None (Some (page 100%nat)) (Some (JInt 150)))
    | _ => Answer (Json None (Some (page 50%nat)) (Some (JInt total)))
    end in
  get_tasks_in_release self (jira 150) 2 world0
  = get_tasks_in_release self (jira 7) 2 world0.
Proof.
  intros self page jira.
  apply (later_totals_ignored self (jira 150) (jira 7) 2 150);
    [reflexivity|reflexivity|reflexivity|].
  intros [|[|n]] Hn; [lia|lia|reflexivity].
Defined.
